(** * Extraction pipeline of ros-to-huggingface: a shallow embedding

    The development follows [3-pipeline/extract_bag.py]: the sampling test,
    the per-message body of the main loop of [extract_single], its
    [try]/[finally] envelope, and the batch driver [extract_all].

    Python integers are [Z]; dictionaries that are only looked up are
    [gmap]s; [csv_writers], which the [finally] block iterates in insertion
    order, is an association list.  Exceptions and the mutable world (files,
    handles, directories) are threaded through a state-and-exception monad.
    The file system is a parameter: which paths can be written, which file
    a path names, whether the size of a directory entry can be taken, and
    whether a file can be flushed when it is closed.

    Names follow the source.  The parameter [output_dir] of [extract_single]
    and [extract_all] is written [out_dir], since [output_dir] is also the key
    of a schema entry; the sampling test of line 89, which the source writes
    inline, is [should_keep]. *)

From Stdlib Require Import ZArith Ascii String Sorted Permutation.
From stdpp Require Import gmap strings list fin_maps pretty.

Open Scope Z_scope.

(** ** Python string helpers *)

Module PyStr.

Fixpoint has_slash (s : string) : bool :=
  match s with
  | EmptyString => false
  | String c r => if Ascii.eqb c "/"%char then true else has_slash r
  end.

(** [s.split("/")[-1]]: the text after the last slash. *)
Fixpoint last_segment (s : string) : string :=
  match s with
  | EmptyString => EmptyString
  | String c r =>
      if has_slash r then last_segment r
      else if Ascii.eqb c "/"%char then r else s
  end.

(** [s[:-4]]: everything but the last four characters (empty when the
    string is shorter). *)
Definition drop_last4 (s : string) : string :=
  String.substring 0 (String.length s - 4)%nat s.

(** [s.startswith(p)] *)
Definition startswith (p s : string) : bool := String.prefix p s.

(** [s.endswith(p)] *)
Definition endswith (p s : string) : bool :=
  String.eqb (String.substring (String.length s - String.length p)%nat
                               (String.length p) s) p
  && (String.length p <=? String.length s)%nat.

(** [str(n)] for an integer. *)
Definition str (n : Z) : string := pretty n.

(** The line feed of ["\n"]. *)
Definition nl : string := String (Ascii.ascii_of_nat 10) EmptyString.

End PyStr.

(** ** [pathlib] on POSIX

    [Path(s)] keeps the root of [s] and its components: empty components
    and single dots are dropped, double dots are kept. *)

Module PyPath.

(** [s.split("/")] *)
Fixpoint split (s : string) : list string :=
  match s with
  | EmptyString => [EmptyString]
  | String c r =>
      if Ascii.eqb c "/"%char then EmptyString :: split r
      else match split r with
           | [] => [String c EmptyString]
           | h :: t => String c h :: t
           end
  end.

Definition components (s : string) : list string :=
  filter (fun part => part <> EmptyString /\ part <> ".") (split s).

(** One leading slash, or three and more, make the root ["/"]; exactly two
    are kept. *)
Definition root (s : string) : string :=
  if String.prefix "///" s then "/"
  else if String.prefix "//" s then "//"
  else if String.prefix "/" s then "/"
  else EmptyString.

(** ["/".join(l)] *)
Fixpoint join (l : list string) : string :=
  match l with
  | [] => EmptyString
  | [part] => part
  | part :: r => part +:+ "/" +:+ join r
  end.

Definition render (root : string) (l : list string) : string :=
  match root, l with
  | EmptyString, [] => "."
  | _, _ => root +:+ join l
  end.

(** [str(Path(s))] *)
Definition str (s : string) : string := render (root s) (components s).

(** [str(Path(s) / name)] for the name of a directory entry. *)
Definition child (s name : string) : string := render (root s) (components s ++ [name]).

End PyPath.

(** ** Sampling test (line 89)

    [(topic_idx >= start_idx) and (topic_idx < end_idx) and
     (topic_idx % throttle_rate == 0)], with the short circuit of [and]:
    the remainder is computed, and may raise, only when the two bounds hold. *)

Inductive exn : Type :=
| ZeroDivisionError
| KeyError (k : string)
| IndexError
| ValueError
| OSError (p : string)
| BagError (p : string)
| HandlerError (msg_type : string).

Inductive result (A : Type) : Type :=
| Ok (a : A)
| Raise (e : exn).
Arguments Ok {A} a.
Arguments Raise {A} e.

Definition should_keep (topic_idx start_idx end_idx throttle_rate : Z) : result bool :=
  if negb (start_idx <=? topic_idx) then Ok false
  else if negb (topic_idx <? end_idx) then Ok false
  else if throttle_rate =? 0 then Raise ZeroDivisionError
  else Ok (topic_idx mod throttle_rate =? 0).

(** ** State and exception monad

    A computation takes the mutable state, and returns the state it leaves
    together with a value or the exception it raised: the effects made before
    an exception stay. *)

Definition M (S A : Type) : Type := S -> S * result A.

#[global] Instance M_ret {S : Type} : MRet (M S) := fun A a s => (s, Ok a).

#[global] Instance M_bind {S : Type} : MBind (M S) := fun A B f m s =>
  match m s with
  | (s', Ok a) => f a s'
  | (s', Raise e) => (s', Raise e)
  end.

Definition raise {S A : Type} (e : exn) : M S A := fun s => (s, Raise e).

Definition gets {S A : Type} (f : S -> A) : M S A := fun s => (s, Ok (f s)).

Definition modify {S : Type} (f : S -> S) : M S unit := fun s => (f s, Ok tt).

Definition lift_result {S A : Type} (r : result A) : M S A := fun s => (s, r).

Definition lift_option {S A : Type} (e : exn) (o : option A) : M S A :=
  match o with Some a => mret a | None => raise e end.

(** [try: body finally: cleanup]: the cleanup always runs; an exception of
    the cleanup replaces the outcome of the body. *)
Definition try_finally {S A : Type} (body : M S A) (cleanup : M S unit) : M S A :=
  fun s =>
    match body s with
    | (s1, r) =>
        match cleanup s1 with
        | (s2, Ok _) => (s2, r)
        | (s2, Raise e) => (s2, Raise e)
        end
    end.

(** [try: body except: handler] with a bare [except]. *)
Definition try_except {S A : Type} (body handler : M S A) : M S A :=
  fun s =>
    match body s with
    | (s1, Ok a) => (s1, Ok a)
    | (s1, Raise _) => handler s1
    end.

(** [for x in l: body(x)] *)
Fixpoint for_each {S A : Type} (l : list A) (body : A -> M S unit) : M S unit :=
  match l with
  | [] => mret tt
  | x :: r => body x ;; for_each r body
  end.

(** [enumerate(l)], counting from [i]. *)
Fixpoint enumerate_from {A : Type} (i : Z) (l : list A) : list (Z * A) :=
  match l with
  | [] => []
  | x :: r => (i, x) :: enumerate_from (i + 1) r
  end.

(** [m] keeps the invariant [I] when it returns, and leaves [E] when it
    raises. *)
Definition keeps {S A : Type} (I E : S -> Prop) (m : M S A) : Prop :=
  forall s, I s ->
    match m s with
    | (s', Ok _) => I s'
    | (s', Raise _) => E s'
    end.

(** [m] relates every state to the state it leaves, whatever its outcome. *)
Definition preserves {S A : Type} (R : S -> S -> Prop) (m : M S A) : Prop :=
  forall s, R s (fst (m s)).

(** The property [P] is not lost from [s] to [s']. *)
Definition kept {S : Type} (P : S -> Prop) (s s' : S) : Prop := P s -> P s'.

(** An insertion-ordered dictionary with string keys: lookup, and assignment
    (in place when the key is present, at the end otherwise). *)
Fixpoint dict_get {V : Type} (k : string) (d : list (string * V)) : option V :=
  match d with
  | [] => None
  | (k', v) :: r => if decide (k' = k) then Some v else dict_get k r
  end.

Fixpoint dict_set {V : Type} (k : string) (v : V) (d : list (string * V)) : list (string * V) :=
  match d with
  | [] => [(k, v)]
  | (k', v') :: r => if decide (k' = k) then (k, v) :: r else (k', v') :: dict_set k v r
  end.

(** ** Configuration *)

Section Model.

(** The types the pipeline is parametric in: raw messages and their time
    stamps, the scalar values of tabular fields, rendered images with their
    PNG metadata, and the free-form [extra_options] of a schema entry. *)
Context {Payload Stamp Value Image PngInfo Extra : Type}.

Record schema_entry : Type := {
  rosbag_topic : string;
  output_dir : string;
  output_type : string;
  start_idx : Z;
  end_idx : Z;
  throttle_rate : Z;
  extra_options : option Extra
}.

(** [__main__], lines 164-166. *)
Definition unbounded_end : Z := 9000000000000000.

Definition infer_end_idx_entry (e : schema_entry) : schema_entry :=
  if end_idx e =? -1 then
    {| rosbag_topic := rosbag_topic e; output_dir := output_dir e;
       output_type := output_type e; start_idx := start_idx e;
       end_idx := unbounded_end; throttle_rate := throttle_rate e;
       extra_options := extra_options e |}
  else e.

Definition infer_end_idx (data_schema : list schema_entry) : list schema_entry :=
  map infer_end_idx_entry data_schema.

(** One record of [bag.read_messages()]: topic, message (its [_type] and
    its payload) and time stamp. *)
Record message : Type := {
  m_topic : string;
  m_type : string;
  m_msg : Payload;
  m_stamp : Stamp
}.

(** ** The world: files, directories, images, handles, and a call log *)

Inductive cell : Type :=
| CStr (s : string)
| CVal (v : Value).

Record fhandle : Type := { h_path : string; h_closes : nat }.

Inductive event : Type :=
| EPrint (s : string)
| EBagOpen (p : string)
| EMkdir (p : string)
| EOpen (p : string)
| EWriteRow (h : nat) (r : list cell)
| ESave (p : string)
| EClose (h : nat).

Record world : Type := {
  files : gmap string (list (list cell));
  dirs : gset string;
  images : gmap string (Image * PngInfo);
  handles : list fhandle;
  log : list event
}.

Record csv_sink : Type := {
  file : nat;
  writer : list string;
  sink_msg_type : string
}.

Record img_sink : Type := {
  directory : string;
  img_msg_type : string
}.

(** The local variables of [extract_single] together with the world. *)
Record state : Type := {
  csv_writers : list (string * csv_sink);
  img_writers : gmap string img_sink;
  topic_msg_counts : gmap string Z;
  progress : Z;
  w : world
}.

(** An entry below a directory: its path relative to the directory, one
    component per level, and the size [stat()] reports for it ([None] when
    [stat()] raises, as for a link whose target is missing). *)
Record dir_entry : Type := {
  parts : list string;
  st_size : option Z
}.

(** The collaborators that are not part of the pipeline file: the
    [rosbag_preprocess.data_handler] functions (which may raise, here
    [None]), the bag reader, and the file system: the entries below a
    directory, whether a path can be written, the file a path names, and
    whether what was written to a file can be flushed when it is closed.

    [resolve p] is the file the operating system finds at the path [p]
    (repeated slashes, dot segments and links followed): two paths name one
    file exactly when they resolve alike.  The pipeline makes no link and
    renames nothing, so the resolution is the same during a run. *)
Class Collaborators : Type := {
  get_msg_cols : string -> option (list string);
  process_msg_csv : string -> Payload -> Stamp -> option Extra -> option (gmap string Value);
  process_msg_img : string -> Payload -> Stamp -> option Extra -> option (Image * PngInfo);
  read_messages : string -> option (list message);
  entries_below : string -> list dir_entry;
  writable : string -> bool;
  resolve : string -> string;
  flushes : string -> bool
}.

Context {env : Collaborators}.

(** ** Updates of the state *)

Definition set_csv_writers (v : list (string * csv_sink)) (s : state) : state :=
  {| csv_writers := v; img_writers := img_writers s;
     topic_msg_counts := topic_msg_counts s; progress := progress s; w := w s |}.

Definition set_img_writers (v : gmap string img_sink) (s : state) : state :=
  {| csv_writers := csv_writers s; img_writers := v;
     topic_msg_counts := topic_msg_counts s; progress := progress s; w := w s |}.

Definition set_topic_msg_counts (v : gmap string Z) (s : state) : state :=
  {| csv_writers := csv_writers s; img_writers := img_writers s;
     topic_msg_counts := v; progress := progress s; w := w s |}.

Definition set_progress (v : Z) (s : state) : state :=
  {| csv_writers := csv_writers s; img_writers := img_writers s;
     topic_msg_counts := topic_msg_counts s; progress := v; w := w s |}.

Definition set_w (v : world) (s : state) : state :=
  {| csv_writers := csv_writers s; img_writers := img_writers s;
     topic_msg_counts := topic_msg_counts s; progress := progress s; w := v |}.

Definition log_call (e : event) (x : world) : world :=
  {| files := files x; dirs := dirs x; images := images x;
     handles := handles x; log := log x ++ [e] |}.

(** ** Operations on the world

    Each logs the call with the text of its path, then acts.  Tables are
    kept by the file their path resolves to, and a handle remembers the file
    it was opened on; directories and images are kept by the path they were
    made or saved at.  Contents of a file are its logical contents: what the
    handles opened on it have written, in order, whether or not it reaches
    the disk when the file is closed. *)

(** [print(s)] *)
Definition print (s : string) : M world unit := modify (log_call (EPrint s)).

(** [Path(p).mkdir(parents=True, exist_ok=True)]; the ancestors it creates
    are not tracked. *)
Definition mkdir (p : string) : M world unit :=
  modify (log_call (EMkdir p)) ;;
  if writable p then
    modify (fun x => {| files := files x; dirs := {[p]} ∪ dirs x; images := images x;
                        handles := handles x; log := log x |})
  else raise (OSError p).

(** [open(p, 'w', newline='')]: the file is created or truncated, and a new
    handle on it is returned. *)
Definition open_w (p : string) : M world nat :=
  modify (log_call (EOpen p)) ;;
  if writable p then
    h ← gets (fun x => length (handles x));
    modify (fun x => {| files := <[resolve p := []]> (files x); dirs := dirs x;
                        images := images x;
                        handles := handles x ++ [{| h_path := resolve p; h_closes := 0 |}];
                        log := log x |}) ;;
    mret h
  else raise (OSError p).

(** A write through handle [h]: [ValueError] on a closed file. *)
Definition write_row (h : nat) (r : list cell) : M world unit :=
  modify (log_call (EWriteRow h r)) ;;
  hs ← gets handles;
  match hs !! h with
  | Some fh =>
      if (h_closes fh =? 0)%nat then
        modify (fun x => {| files := <[h_path fh := default [] (files x !! h_path fh) ++ [r]]> (files x);
                            dirs := dirs x; images := images x;
                            handles := handles x; log := log x |})
      else raise ValueError
  | None => raise ValueError
  end.

(** [f.close()]: the handle counts its closes.  Closing an open file
    flushes what was written to it, and raises when that fails; the file is
    closed all the same.  Closing a closed file does nothing. *)
Definition close (h : nat) : M world unit :=
  modify (log_call (EClose h)) ;;
  hs ← gets handles;
  modify (fun x => {| files := files x; dirs := dirs x; images := images x;
                      handles := alter (fun fh => {| h_path := h_path fh;
                                                     h_closes := S (h_closes fh) |})
                                       h (handles x);
                      log := log x |}) ;;
  match hs !! h with
  | Some fh =>
      if (h_closes fh =? 0)%nat && negb (flushes (h_path fh))
      then raise (OSError (h_path fh))
      else mret tt
  | None => mret tt
  end.

(** [img.save(p, pnginfo=meta)] *)
Definition save (p : string) (img : Image) (meta : PngInfo) : M world unit :=
  modify (log_call (ESave p)) ;;
  if writable p then
    modify (fun x => {| files := files x; dirs := dirs x; images := <[p := (img, meta)]> (images x);
                        handles := handles x; log := log x |})
  else raise (OSError p).

(** [rosbag.Bag(p, 'r')] and its [read_messages()]. *)
Definition open_bag (p : string) : M world (list message) :=
  modify (log_call (EBagOpen p)) ;;
  lift_option (BagError p) (read_messages p).

(** An operation on the world, run on the world of the state. *)
Definition in_world {A : Type} (m : M world A) : M state A :=
  fun s => match m (w s) with (x, r) => (set_w x s, r) end.

(** ** [csv.DictWriter] (extrasaction ['raise'], restval ['']) *)

(** [rowdict.keys() - self.fieldnames] *)
Definition wrong_fields (fieldnames : list string) (rowdict : gmap string cell) : gset string :=
  dom rowdict ∖ list_to_set fieldnames.

(** [_dict_to_list]: a key outside the field names raises; a field name
    without a value gets [restval]. *)
Definition dict_to_list (fieldnames : list string) (rowdict : gmap string cell) : result (list cell) :=
  if decide (wrong_fields fieldnames rowdict = ∅) then
    Ok (map (fun key => default (CStr "") (rowdict !! key)) fieldnames)
  else Raise ValueError.

Definition writerow (sink : csv_sink) (rowdict : gmap string cell) : M world unit :=
  r ← lift_result (dict_to_list (writer sink) rowdict);
  write_row (file sink) r.

(** [writeheader]: [writerow(dict(zip(fieldnames, fieldnames)))]. *)
Definition writeheader (sink : csv_sink) : M world unit :=
  writerow sink (list_to_map (map (fun k => (k, CStr k)) (reverse (writer sink)))).

(** ** The body of the main loop of [extract_single] (lines 81-123) *)

(** [topic_msg_counts[topic]] *)
Definition get_count (topic : string) : M state Z :=
  counts ← gets topic_msg_counts;
  lift_option (KeyError topic) (counts !! topic).

(** Lines 118-121: [try: topic_msg_counts[topic] += 1]
    [except: topic_msg_counts[topic] = 1]. *)
Definition bookkeeping (topic : string) : M state unit :=
  try_except
    (n ← get_count topic;
     modify (fun s => set_topic_msg_counts (<[topic := n + 1]> (topic_msg_counts s)) s))
    (modify (fun s => set_topic_msg_counts (<[topic := 1]> (topic_msg_counts s)) s)).

(** The text of the paths, as the f-strings of lines 95, 96, 110 and 115
    build it; the file such a path names is [resolve] of it. *)
Definition csv_file_path (out_dir bag_name : string) (topic_config : schema_entry) : string :=
  out_dir +:+ "/" +:+ bag_name +:+ "/" +:+ output_dir topic_config +:+ ".csv".

Definition img_full_dir (out_dir bag_name : string) (topic_config : schema_entry) : string :=
  out_dir +:+ "/" +:+ bag_name +:+ "/" +:+ output_dir topic_config.

Definition img_file_path (out_dir bag_name : string) (topic_config : schema_entry) (idx : Z) : string :=
  out_dir +:+ "/" +:+ bag_name +:+ "/" +:+ output_dir topic_config +:+ "/" +:+ PyStr.str idx +:+ ".png".

(** Lines 93-102: the tabular sink of a topic is created on its first
    accepted message. *)
Definition create_csv_writer (out_dir bag_name : string) (topic_config : schema_entry)
    (topic msg_type : string) : M state unit :=
  in_world (mkdir (out_dir +:+ "/" +:+ bag_name)) ;;
  csv_file ← in_world (open_w (csv_file_path out_dir bag_name topic_config));
  fieldnames ← lift_option (HandlerError msg_type) (get_msg_cols msg_type);
  let sink := {| file := csv_file; writer := fieldnames; sink_msg_type := msg_type |} in
  in_world (writeheader sink) ;;
  modify (fun s => set_csv_writers (dict_set topic sink (csv_writers s)) s).

(** Lines 92-106. *)
Definition extract_csv (out_dir bag_name : string) (topic_config : schema_entry)
    (m : message) : M state unit :=
  writers ← gets csv_writers;
  (if dict_get (m_topic m) writers is None
   then create_csv_writer out_dir bag_name topic_config (m_topic m) (m_type m)
   else mret tt) ;;
  processed_data ← lift_option (HandlerError (m_type m))
    (process_msg_csv (m_type m) (m_msg m) (m_stamp m) (extra_options topic_config));
  writers ← gets csv_writers;
  sink ← lift_option (KeyError (m_topic m)) (dict_get (m_topic m) writers);
  in_world (writerow sink (CVal <$> processed_data)).

(** Lines 108-115. *)
Definition extract_img (out_dir bag_name : string) (topic_config : schema_entry)
    (m : message) : M state unit :=
  writers ← gets img_writers;
  (if writers !! m_topic m is None
   then
     let full_dir := img_full_dir out_dir bag_name topic_config in
     in_world (mkdir full_dir) ;;
     modify (fun s => set_img_writers
       (<[m_topic m := {| directory := full_dir; img_msg_type := m_type m |}]> (img_writers s)) s)
   else mret tt) ;;
  processed_data ← lift_option (HandlerError (m_type m))
    (process_msg_img (m_type m) (m_msg m) (m_stamp m) (extra_options topic_config));
  idx ← get_count (m_topic m);
  in_world (save (img_file_path out_dir bag_name topic_config idx)
                 (fst processed_data) (snd processed_data)).

(** Lines 84-115: only the configured topics are extracted. *)
Definition extract_message (extraction_config : list schema_entry) (out_dir bag_name : string)
    (m : message) : M state unit :=
  if bool_decide (m_topic m ∈ map rosbag_topic extraction_config) then
    topic_idx ← get_count (m_topic m);
    topic_config ← lift_option IndexError
      (head (filter (fun topic_info => rosbag_topic topic_info = m_topic m) extraction_config));
    keep ← lift_result (should_keep topic_idx (start_idx topic_config)
                                    (end_idx topic_config) (throttle_rate topic_config));
    if keep : bool then
      if String.eqb (output_type topic_config) "csv" then
        extract_csv out_dir bag_name topic_config m
      else if String.eqb (output_type topic_config) "dir_of_imgs" then
        extract_img out_dir bag_name topic_config m
      else mret tt
    else mret tt
  else mret tt.

Definition process_message (extraction_config : list schema_entry) (out_dir bag_name : string)
    (m : message) : M state unit :=
  extract_message extraction_config out_dir bag_name m ;;
  bookkeeping (m_topic m) ;;
  modify (fun s => set_progress (progress s + 1) s).

(** ** [extract_single] (lines 64-128) *)

(** Lines 126-128. *)
Definition close_all : M state unit :=
  writers ← gets csv_writers;
  for_each writers (fun kv => in_world (close (file (snd kv)))).

(** Lines 66-71: the local variables at the start of a bag. *)
Definition setup (extraction_config : list schema_entry) (x : world) : state :=
  {| csv_writers := []; img_writers := ∅;
     topic_msg_counts := foldl (fun d topic => <[topic := 0]> d) ∅
                               (map rosbag_topic extraction_config);
     progress := 0; w := x |}.

Definition bag_name_of (rosbag_abs_path : string) : string :=
  PyStr.drop_last4 (PyStr.last_segment rosbag_abs_path).

Definition main_loop (rosbag_abs_path : string) (extraction_config : list schema_entry)
    (out_dir : string) : M state unit :=
  bag ← in_world (open_bag rosbag_abs_path);
  for_each bag (process_message extraction_config out_dir (bag_name_of rosbag_abs_path)).

Definition extract_single_state (rosbag_abs_path : string) (extraction_config : list schema_entry)
    (out_dir : string) : M state unit :=
  try_finally (main_loop rosbag_abs_path extraction_config out_dir) close_all.

Definition extract_single (rosbag_abs_path : string) (extraction_config : list schema_entry)
    (out_dir : string) : M world unit :=
  fun x =>
    match extract_single_state rosbag_abs_path extraction_config out_dir
            (setup extraction_config x) with
    | (s, r) => (w s, r)
    end.

(** ** [extract_all] (lines 131-144) *)

(** [Path(d).glob('*.bag')]: the entries directly in the directory whose name
    ends in [.bag]; the pattern also matches names that start with a dot. *)
Definition glob_bag (l : list dir_entry) : list (string * option Z) :=
  omap (fun e => match parts e with
                 | [name] => if PyStr.endswith ".bag" name then Some (name, st_size e) else None
                 | _ => None
                 end) l.

Fixpoint insert_by_size (e : string * Z) (l : list (string * Z)) : list (string * Z) :=
  match l with
  | [] => [e]
  | x :: r => if snd e <=? snd x then e :: x :: r else x :: insert_by_size e r
  end.

(** [list.sort(key=lambda file: file.stat().st_size)]: ascending and stable. *)
Definition sort_by_size (l : list (string * Z)) : list (string * Z) :=
  foldr insert_by_size [] l.

(** Line 133: the bag files of the directory, hidden ones left out. *)
Definition selected (rosbag_abs_path : string) : list (string * option Z) :=
  filter (fun f => PyStr.startswith "." (fst f) = false)
         (glob_bag (entries_below rosbag_abs_path)).

(** The keys of the sort of line 135: [file.stat().st_size] is taken of
    every file of the list, in the order of the list, before anything is
    moved; the first [stat()] that raises ends the sort. *)
Fixpoint sizes (rosbag_abs_path : string) (l : list (string * option Z))
    : result (list (string * Z)) :=
  match l with
  | [] => Ok []
  | (name, Some size) :: r =>
      match sizes rosbag_abs_path r with
      | Ok keyed => Ok ((name, size) :: keyed)
      | Raise e => Raise e
      end
  | (name, None) :: r => Raise (OSError (PyPath.child rosbag_abs_path name))
  end.

(** Lines 133-137: the paths of the bags, in processing order; [str(file)]
    is the path as [pathlib] writes it. *)
Definition list_o_bags (rosbag_abs_path : string) : result (list string) :=
  match sizes rosbag_abs_path (selected rosbag_abs_path) with
  | Ok keyed => Ok (map (fun f => PyPath.child rosbag_abs_path (fst f)) (sort_by_size keyed))
  | Raise e => Raise e
  end.

(** Lines 142-144: the body of the loop over the bags. *)
Definition process_bag (extraction_config : list schema_entry) (out_dir : string)
    (ib : Z * string) : M world unit :=
  print ("Extracting bag # " +:+ PyStr.str (fst ib) +:+ "...") ;;
  extract_single (snd ib) extraction_config out_dir ;;
  print ("...Completed!" +:+ PyStr.nl +:+ PyStr.nl).

Definition extract_all (rosbag_abs_path : string) (extraction_config : list schema_entry)
    (out_dir : string) : M world unit :=
  bags ← lift_result (list_o_bags rosbag_abs_path);
  for_each (enumerate_from 0 bags) (process_bag extraction_config out_dir).

(** The bags the pipeline was invoked on, in order of invocation. *)
Definition invoked (l : list event) : list string :=
  omap (fun e => match e with EBagOpen p => Some p | _ => None end) l.

(** From [x] to [x'] calls were made, none of them the opening of a bag. *)
Definition quiet (x x' : world) : Prop :=
  exists evs, log x' = log x ++ evs /\ invoked evs = [].

Definition quiet_state (s s' : state) : Prop := quiet (w s) (w s').

(** The handles of the tabular sinks, in order of creation. *)
Definition registered (s : state) : list nat :=
  map (fun kv => file (snd kv)) (csv_writers s).

(** The state of the handles while a bag that started in world [x0] is
    processed: the handles of [x0] are there, followed by the handles opened
    since, none of them closed; the sinks hold the first of these, in order,
    and [leak] more handles are open without a sink. *)
Definition bag_inv (x0 : world) (leak : nat) (s : state) : Prop :=
  exists new,
    handles (w s) = handles x0 ++ new
    /\ Forall (fun fh => h_closes fh = 0%nat) new
    /\ registered s = seq (length (handles x0)) (length (csv_writers s))
    /\ length new = (length (csv_writers s) + leak)%nat.

(** After an exception: at most one handle is open without a sink. *)
Definition bag_inv_raised (x0 : world) (s : state) : Prop :=
  bag_inv x0 0 s \/ bag_inv x0 1 s.

(** The sinks and the handles are the same. *)
Definition same_handles (s s' : state) : Prop :=
  csv_writers s' = csv_writers s /\ handles (w s') = handles (w s).

(** What [f.close()] does to a handle. *)
Definition closed_once (fh : fhandle) : fhandle :=
  {| h_path := h_path fh; h_closes := S (h_closes fh) |}.


(** The conditions of lines 84-89 under which the message is extracted with
    schema entry [topic_config]: its topic is configured, [topic_config] is
    the first entry of that topic, and the cursor passes the sampling test. *)
Definition accepted (extraction_config : list schema_entry) (s : state) (m : message)
    (topic_config : schema_entry) : Prop :=
  m_topic m ∈ map rosbag_topic extraction_config
  /\ head (filter (fun topic_info => rosbag_topic topic_info = m_topic m) extraction_config)
       = Some topic_config
  /\ exists topic_idx,
       topic_msg_counts s !! m_topic m = Some topic_idx
       /\ should_keep topic_idx (start_idx topic_config) (end_idx topic_config)
                      (throttle_rate topic_config) = Ok true.

(** The row [DictWriter] writes for a dictionary of values: one cell per
    field name, in the order of the field names. *)
Definition row_of (fieldnames : list string) (data : gmap string Value) : list cell :=
  map (fun key => match data !! key with Some v => CVal v | None => CStr "" end) fieldnames.

(** Every sink of [s] is still the sink of its topic in [s']. *)
Definition sinks_kept (s s' : state) : Prop :=
  (forall topic sink, dict_get topic (csv_writers s) = Some sink ->
                      dict_get topic (csv_writers s') = Some sink)
  /\ (forall topic sink, img_writers s !! topic = Some sink ->
                         img_writers s' !! topic = Some sink).

(** The cursors are the same. *)
Definition same_counts (s s' : state) : Prop :=
  topic_msg_counts s' = topic_msg_counts s.

(** The local variables other than the cursors are the same. *)
Definition same_sinks (s s' : state) : Prop :=
  csv_writers s' = csv_writers s /\ img_writers s' = img_writers s.

End Model.

(** ** A concrete configuration, bag and set of collaborators

    A twist topic extracted as a table and a camera topic extracted as
    images, over a bag of six interleaved messages per topic; used to run the
    definitions on concrete inputs. *)

Module Example.

Definition twist : string := "geometry_msgs/Twist".
Definition image_type : string := "sensor_msgs/Image".

Definition cmd_vel (stamp : Z) : @message unit Z :=
  {| m_topic := "/cmd_vel"; m_type := twist; m_msg := tt; m_stamp := stamp |}.

Definition cam (stamp : Z) : @message unit Z :=
  {| m_topic := "/cam"; m_type := image_type; m_msg := tt; m_stamp := stamp |}.

(** A message on a topic that the configuration does not name. *)
Definition tf (stamp : Z) : @message unit Z :=
  {| m_topic := "/tf"; m_type := "tf2_msgs/TFMessage"; m_msg := tt; m_stamp := stamp |}.

(** A message on the tabular topic whose type has no handler. *)
Definition odd (stamp : Z) : @message unit Z :=
  {| m_topic := "/cmd_vel"; m_type := "std_msgs/Unknown"; m_msg := tt; m_stamp := stamp |}.

Definition run1 : list (@message unit Z) :=
  flat_map (fun i => [cmd_vel i; cam i]) [10; 11; 12; 13; 14; 15].

(** The fields of a twist message; the message stamped 99 lacks [wz], and
    the message stamped 98 carries a field the table has no column for. *)
Definition twist_fields (stamp : Z) : gmap string Z :=
  if stamp =? 99 then <["stamp" := stamp]> (<["vx" := 7]> ∅)
  else if stamp =? 98 then
    <["stamp" := stamp]> (<["vx" := 7]> (<["wz" := 3]> (<["frame" := 0]> ∅)))
  else <["stamp" := stamp]> (<["vx" := 7]> (<["wz" := 3]> ∅)).

Definition env : @Collaborators unit Z Z string string unit := {|
  get_msg_cols := fun t =>
    if String.eqb t twist then Some ["stamp"; "vx"; "wz"] else None;
  process_msg_csv := fun t _ stamp _ =>
    if String.eqb t twist then Some (twist_fields stamp) else None;
  process_msg_img := fun t _ stamp _ =>
    if String.eqb t image_type then Some ("frame", "meta") else None;
  read_messages := fun p =>
    if String.eqb p "/data/run1.bag" then Some run1
    else if String.eqb p "/data/a.bag" then Some [cmd_vel 1; tf 2]
    else if String.eqb p "/data/b.bag" then Some [cmd_vel 1; odd 2; odd 3; cmd_vel 4]
    else if String.eqb p "/data/c.bag" then Some [cmd_vel 1]
    else if String.eqb p "/data/short.bag" then Some [cmd_vel 10; cmd_vel 11; cmd_vel 99]
    else if String.eqb p "/data/wide.bag" then
      Some [cmd_vel 10; cmd_vel 11; cmd_vel 98; cmd_vel 12]
    else if String.eqb p "/data/leak.bag" then Some [odd 1]
    else None;
  entries_below := fun d =>
    if String.eqb d "/data" then
      [ {| parts := ["c.bag"]; st_size := Some 300 |};
        {| parts := ["a.bag"]; st_size := Some 100 |};
        {| parts := [".hidden.bag"]; st_size := Some 1 |};
        {| parts := ["old"; "z.bag"]; st_size := Some 2 |};
        {| parts := ["notes.txt"]; st_size := Some 3 |};
        {| parts := ["b.bag"]; st_size := Some 200 |} ]
    else [];
  writable := fun _ => true;
  resolve := PyPath.str;
  flushes := fun _ => true
|}.

Definition twist_entry : @schema_entry unit :=
  {| rosbag_topic := "/cmd_vel"; output_dir := "twist"; output_type := "csv";
     start_idx := 0; end_idx := -1; throttle_rate := 2; extra_options := None |}.

Definition cam_entry : @schema_entry unit :=
  {| rosbag_topic := "/cam"; output_dir := "cam"; output_type := "dir_of_imgs";
     start_idx := 1; end_idx := 5; throttle_rate := 1; extra_options := None |}.

Definition config : list (@schema_entry unit) := infer_end_idx [twist_entry; cam_entry].

Definition empty_world : @world Z string string :=
  {| files := ∅; dirs := ∅; images := ∅; handles := []; log := [] |}.


(** The twist entry as configured, with its end index translated. *)
Definition twist_config : @schema_entry unit := infer_end_idx_entry twist_entry.

(** The state of a bag after two twist messages: the tabular sink exists and
    the cursor of the topic is 2. *)
Definition after_two (bag_name : string) : @state Z string string :=
  fst (for_each [cmd_vel 10; cmd_vel 11] (process_message (env := env) config "out" bag_name)
         (setup config empty_world)).


End Example.

(** ** The script (lines 152-172) *)

(** [s[-4:]]: the last four characters (the whole string when it is
    shorter). *)
Definition last4 (s : string) : string :=
  String.substring (String.length s - 4)%nat 4 s.

Section Script.

Context {Payload Stamp Value Image PngInfo Extra : Type}.
Context {env : @Collaborators Payload Stamp Value Image PngInfo Extra}.

(** Lines 163-172, from the parsed arguments and the configuration that
    [yaml.safe_load] returned: the end indexes are inferred, and the path is
    taken for one bag when its last four characters are [.bag], for a
    directory of bags otherwise. *)
Definition main (bagfile out_dir : string) (data_schema : list (@schema_entry Extra)) :
    M (@world Value Image PngInfo) unit :=
  let extraction_config := infer_end_idx data_schema in
  if String.eqb (last4 bagfile) ".bag"
  then extract_single bagfile extraction_config out_dir
  else extract_all bagfile extraction_config out_dir.

(** The path a call works on, for the calls that take one. *)
Definition touches (e : @event Value) : option string :=
  match e with
  | EMkdir p | EOpen p | ESave p => Some p
  | _ => None
  end.

(** Every path the calls work on starts with [root]. *)
Definition under (root : string) (evs : list (@event Value)) : Prop :=
  Forall (fun e => match touches e with
                   | Some p => String.prefix root p = true
                   | None => True
                   end) evs.

(** From [x] to [x'] calls were made, all of them under [root]. *)
Definition confined (root : string) (x x' : @world Value Image PngInfo) : Prop :=
  exists evs, log x' = log x ++ evs /\ under root evs.

Definition confined_state (root : string) (s s' : @state Value Image PngInfo) : Prop :=
  confined root (w s) (w s').

(** The progress bar stands where it stood. *)
Definition same_progress (s s' : @state Value Image PngInfo) : Prop :=
  progress s' = progress s.

End Script.

(** ** The tables of a bag *)

Section Tables.

Context {Payload Stamp Value Image PngInfo Extra : Type}.
Context {env : @Collaborators Payload Stamp Value Image PngInfo Extra}.

(** Lines 93-102: the part of [extract_csv] that makes sure the sink of the
    topic exists. *)
Definition ensure_csv_writer (out_dir bag_name : string) (topic_config : @schema_entry Extra)
    (m : @message Payload Stamp) : M (@state Value Image PngInfo) unit :=
  writers ← gets csv_writers;
  if dict_get (m_topic m) writers is None
  then create_csv_writer out_dir bag_name topic_config (m_topic m) (m_type m)
  else mret tt.

(** Lines 104-106: the part of [extract_csv] after the sink exists. *)
Definition write_message_row (topic_config : @schema_entry Extra)
    (m : @message Payload Stamp) : M (@state Value Image PngInfo) unit :=
  processed_data ← lift_option (HandlerError (m_type m))
    (process_msg_csv (m_type m) (m_msg m) (m_stamp m) (extra_options topic_config));
  writers ← gets csv_writers;
  sink ← lift_option (KeyError (m_topic m)) (dict_get (m_topic m) writers);
  in_world (writerow sink (CVal <$> processed_data)).

(** Every sink holds a handle on the table file of an entry of the
    schema. *)
Definition sink_files (extraction_config : list (@schema_entry Extra))
    (out_dir bag_name : string) (s : @state Value Image PngInfo) : Prop :=
  forall topic sink,
    (topic, sink) ∈ csv_writers s ->
    exists topic_config fh,
      topic_config ∈ extraction_config
      /\ handles (w s) !! file sink = Some fh
      /\ h_path fh = resolve (csv_file_path out_dir bag_name topic_config).

(** Every sink writes to the file of the first schema entry of its topic, a
    tabular entry; its columns are those of its message type; and the file
    holds the header followed by rows of as many cells as there are
    columns. *)
Definition table_inv (extraction_config : list (@schema_entry Extra))
    (out_dir bag_name : string) (s : @state Value Image PngInfo) : Prop :=
  forall topic sink,
    dict_get topic (csv_writers s) = Some sink ->
    exists topic_config fh rows,
      head (filter (fun topic_info => rosbag_topic topic_info = topic) extraction_config)
        = Some topic_config
      /\ output_type topic_config = "csv"
      /\ handles (w s) !! file sink = Some fh
      /\ h_path fh = resolve (csv_file_path out_dir bag_name topic_config)
      /\ get_msg_cols (sink_msg_type sink) = Some (writer sink)
      /\ files (w s) !! resolve (csv_file_path out_dir bag_name topic_config)
         = Some (map CStr (writer sink) :: rows)
      /\ Forall (fun r => length r = length (writer sink)) rows.

(** The sinks, the handles and the files are the same. *)
Definition same_tables (s s' : @state Value Image PngInfo) : Prop :=
  csv_writers s' = csv_writers s
  /\ handles (w s') = handles (w s)
  /\ files (w s') = files (w s).

End Tables.

(** ** [rosbag_preprocess/geometry_msgs.py] *)

Module GeometryMsgs.

Section Twist.

(** The type of the coordinates, and of the time stamp. *)
Context {Num Time Extra : Type}.

Record vector3 : Type := { x : Num; y : Num; z : Num }.

Record twist : Type := { linear : vector3; angular : vector3 }.

(** The values of the dictionary: the stamp, or a coordinate. *)
Inductive field : Type :=
| FStamp (t : Time)
| FNum (v : Num).

(** [process_twist] (lines 21-40). *)
Definition process_twist (msg : twist) (time_stamp : Time) (extra_options : option Extra) :
    gmap string field :=
  let vx := x (linear msg) in
  let vy := y (linear msg) in
  let vz := z (linear msg) in
  let wx := x (angular msg) in
  let wy := y (angular msg) in
  let wz := z (angular msg) in
  <["stamp" := FStamp time_stamp]>
    (<["vx" := FNum vx]> (<["vy" := FNum vy]> (<["vz" := FNum vz]>
    (<["wx" := FNum wx]> (<["wy" := FNum wy]> (<["wz" := FNum wz]> ∅)))))).

(** The keys of the dictionary, in the order of the source. *)
Definition twist_keys : list string := ["stamp"; "vx"; "vy"; "vz"; "wx"; "wy"; "wz"].

End Twist.

End GeometryMsgs.

(** ** Configurations at the edges

    Schema entries that the script accepts as they are: a stride of zero, and
    an output type the pipeline has no branch for. *)

Module Edge.

Definition zero_entry : @schema_entry unit :=
  {| rosbag_topic := "/cmd_vel"; output_dir := "twist"; output_type := "csv";
     start_idx := 0; end_idx := 10; throttle_rate := 0; extra_options := None |}.

Definition pcd_entry : @schema_entry unit :=
  {| rosbag_topic := "/points"; output_dir := "points"; output_type := "pcd";
     start_idx := 0; end_idx := 10; throttle_rate := 1; extra_options := None |}.

Definition points (stamp : Z) : @message unit Z :=
  {| m_topic := "/points"; m_type := "sensor_msgs/PointCloud2"; m_msg := tt;
     m_stamp := stamp |}.

(** The camera entry as configured, with its end index inferred. *)
Definition cam_config : @schema_entry unit := infer_end_idx_entry Example.cam_entry.

(** A second tabular topic, and a bag that carries both. *)
Definition odom_entry : @schema_entry unit :=
  {| rosbag_topic := "/odom"; output_dir := "odom"; output_type := "csv";
     start_idx := 0; end_idx := 10; throttle_rate := 1; extra_options := None |}.

Definition odom (stamp : Z) : @message unit Z :=
  {| m_topic := "/odom"; m_type := Example.twist; m_msg := tt; m_stamp := stamp |}.

Definition two_tables : list (@schema_entry unit) := [Example.twist_config; odom_entry].

Definition both : list (@message unit Z) :=
  [Example.cmd_vel 10; odom 10; Example.cmd_vel 11; odom 11].

(** Collaborators with a file system in which the twist table of the bag
    [full.bag] cannot be flushed, and the directory [/logs] holds a link
    named [gone.bag] whose target is missing. *)
Definition env : @Collaborators unit Z Z string string unit := {|
  get_msg_cols := fun t => get_msg_cols (Collaborators := Example.env) t;
  process_msg_csv := fun t msg stamp extra =>
    process_msg_csv (Collaborators := Example.env) t msg stamp extra;
  process_msg_img := fun t msg stamp extra =>
    process_msg_img (Collaborators := Example.env) t msg stamp extra;
  read_messages := fun p =>
    if String.eqb p "/data/two.bag" then Some both
    else if String.eqb p "/data/full.bag" then Some both
    else if String.eqb p "/logs/a.bag" then Some [Example.cmd_vel 1]
    else None;
  entries_below := fun d =>
    if String.eqb d "/logs/" then
      [ {| parts := ["a.bag"]; st_size := Some 100 |};
        {| parts := ["gone.bag"]; st_size := None |};
        {| parts := ["b.bag"]; st_size := Some 50 |} ]
    else if String.eqb d "/data/" then
      [ {| parts := ["two.bag"]; st_size := Some 100 |} ]
    else [];
  writable := fun _ => true;
  resolve := PyPath.str;
  flushes := fun p => negb (String.eqb p "out/full/twist.csv")
|}.

Definition a_twist : @GeometryMsgs.twist Z :=
  {| GeometryMsgs.linear := {| GeometryMsgs.x := 1; GeometryMsgs.y := 2; GeometryMsgs.z := 3 |};
     GeometryMsgs.angular := {| GeometryMsgs.x := 4; GeometryMsgs.y := 5;
                                GeometryMsgs.z := 6 |} |}.

End Edge.

(** * Properties *)

(** ** Sampling *)

(** C2: for a non-negative cursor and start and a positive stride, the
    sampling test never raises and keeps the message exactly when
    [cursor >= start], [cursor < end] and [cursor mod stride = 0]; with
    stride one every index of [[start, end)] is kept. *)
Theorem should_keep_iff (cursor start end_ stride : Z) :
  0 <= cursor -> 0 <= start -> 0 < stride ->
  (should_keep cursor start end_ stride = Ok true
     <-> (cursor >= start /\ cursor < end_ /\ cursor mod stride = 0))
  /\ (should_keep cursor start end_ stride = Ok false
     <-> ~ (cursor >= start /\ cursor < end_ /\ cursor mod stride = 0))
  /\ (stride = 1 -> start <= cursor < end_ ->
      should_keep cursor start end_ stride = Ok true).
Proof.
  intros _ _ Hstride. unfold should_keep, not.
  destruct (Z.leb_spec start cursor), (Z.ltb_spec cursor end_); simpl;
    try (destruct (Z.eqb_spec stride 0); [lia|];
         destruct (Z.eqb_spec (cursor mod stride) 0));
    repeat split; intros; subst; rewrite ?Z.mod_1_r in *;
    try discriminate; try reflexivity; try lia;
    try (exfalso; lia);
    exfalso; match goal with H : _ -> False |- _ => apply H; lia end.
Qed.

Lemma should_keep_iff_witness :
  should_keep 4 0 9 2 = Ok true <-> (4 >= 0 /\ 4 < 9 /\ 4 mod 2 = 0).
Proof. apply (should_keep_iff 4 0 9 2); lia. Defined.

(** ** The unbounded end index *)

(** C4 (as stated, refuted): an entry with [end_idx = -1], start 0 and
    stride 1 is translated to the finite bound 9000000000000000; the cursor
    of that value meets the start and the stride, and is not kept. *)
Lemma unbounded_end_is_finite :
  let e := infer_end_idx_entry
             {| rosbag_topic := "/cmd_vel"; output_dir := "twist"; output_type := "csv";
                start_idx := 0; end_idx := -1; throttle_rate := 1;
                extra_options := @None unit |} in
  start_idx e <= 9000000000000000
  /\ 9000000000000000 mod throttle_rate e = 0
  /\ should_keep 9000000000000000 (start_idx e) (end_idx e) (throttle_rate e) = Ok false.
Proof. vm_compute. repeat split; discriminate. Qed.

(** C4 (amended): an entry with [end_idx = -1] gets the end index
    9000000000000000 and keeps its other fields; below that bound a cursor is
    kept exactly when it meets the start and the stride, and from that bound
    on no cursor is kept. *)
Theorem infer_end_idx_unbounded {Extra : Type} (e : @schema_entry Extra) (cursor : Z) :
  end_idx e = -1 -> 0 < throttle_rate e ->
  let e' := infer_end_idx_entry e in
  end_idx e' = 9000000000000000
  /\ start_idx e' = start_idx e /\ throttle_rate e' = throttle_rate e
  /\ (cursor < 9000000000000000 ->
      (should_keep cursor (start_idx e') (end_idx e') (throttle_rate e') = Ok true
       <-> start_idx e <= cursor /\ cursor mod throttle_rate e = 0))
  /\ (9000000000000000 <= cursor ->
      should_keep cursor (start_idx e') (end_idx e') (throttle_rate e') = Ok false).
Proof.
  intros Hend Hrate. unfold infer_end_idx_entry. rewrite Hend. simpl.
  unfold unbounded_end, should_keep.
  split; [reflexivity|]. split; [reflexivity|]. split; [reflexivity|].
  split.
  - intros Hlt.
    destruct (Z.leb_spec (start_idx e) cursor); simpl;
      [|split; [discriminate | intros [? _]; lia]].
    destruct (Z.ltb_spec cursor 9000000000000000); [|lia]. simpl.
    destruct (Z.eqb_spec (throttle_rate e) 0); [lia|].
    destruct (Z.eqb_spec (cursor mod throttle_rate e) 0).
    + split; [intros _; split; assumption | reflexivity].
    + split; [discriminate | intros [_ ?]; contradiction].
  - intros Hbig.
    destruct (Z.leb_spec (start_idx e) cursor); [|reflexivity]. simpl.
    destruct (Z.ltb_spec cursor 9000000000000000); [lia|]. reflexivity.
Qed.

Lemma infer_end_idx_unbounded_witness :
  let e' := infer_end_idx_entry Example.twist_entry in
  end_idx e' = 9000000000000000
  /\ (should_keep 1000000 (start_idx e') (end_idx e') (throttle_rate e') = Ok true
      <-> start_idx Example.twist_entry <= 1000000
          /\ 1000000 mod throttle_rate Example.twist_entry = 0).
Proof.
  destruct (infer_end_idx_unbounded Example.twist_entry 1000000) as (H1 & _ & _ & H2 & _);
    [reflexivity | reflexivity |].
  split; [exact H1 | apply H2; reflexivity].
Defined.

(** ** Running the monad *)

Section Monad.

Context {S : Type}.

Lemma bind_run {A B : Type} (m : M S A) (f : A -> M S B) (s : S) :
  (m ≫= f) s = match m s with
               | (s', Ok a) => f a s'
               | (s', Raise e) => (s', Raise e)
               end.
Proof. reflexivity. Qed.

Lemma bind_ok {A B : Type} (m : M S A) (f : A -> M S B) (s s' : S) (a : A) :
  m s = (s', Ok a) -> (m ≫= f) s = f a s'.
Proof. intros H. rewrite bind_run, H. reflexivity. Qed.

Lemma bind_raise {A B : Type} (m : M S A) (f : A -> M S B) (s s' : S) (e : exn) :
  m s = (s', Raise e) -> (m ≫= f) s = (s', Raise e).
Proof. intros H. rewrite bind_run, H. reflexivity. Qed.

(** An exception in the body of a loop ends the loop: the elements after the
    failing one are not visited. *)
Lemma for_each_raise {A : Type} (body : A -> M S unit) (pre : list A) (x : A)
    (post : list A) (s s1 s2 : S) (e : exn) :
  for_each pre body s = (s1, Ok tt) ->
  body x s1 = (s2, Raise e) ->
  for_each (pre ++ x :: post) body s = (s2, Raise e).
Proof.
  revert s. induction pre as [|y pre IH]; intros s Hpre Hx; simpl in *.
  - injection Hpre as <-. rewrite bind_run, Hx. reflexivity.
  - rewrite bind_run in *. destruct (body y s) as [s' [[]|e']]; [|discriminate].
    apply IH; assumption.
Qed.

Lemma for_each_app {A : Type} (body : A -> M S unit) (pre post : list A) (s s1 : S) :
  for_each pre body s = (s1, Ok tt) ->
  for_each (pre ++ post) body s = for_each post body s1.
Proof.
  revert s. induction pre as [|y pre IH]; intros s Hpre; simpl in *.
  - injection Hpre as <-. reflexivity.
  - rewrite bind_run in *. destruct (body y s) as [s' [[]|e']]; [|discriminate].
    apply IH; assumption.
Qed.

Lemma try_finally_state {A : Type} (body : M S A) (cleanup : M S unit) (s : S) :
  fst (try_finally body cleanup s) = fst (cleanup (fst (body s))).
Proof.
  unfold try_finally. destruct (body s) as [s1 r]. simpl.
  destruct (cleanup s1) as [s2 [[]|e]]; reflexivity.
Qed.

Lemma try_finally_result {A : Type} (body : M S A) (cleanup : M S unit) (s : S) :
  snd (cleanup (fst (body s))) = Ok tt ->
  snd (try_finally body cleanup s) = snd (body s).
Proof.
  unfold try_finally. destruct (body s) as [s1 r]. simpl.
  destruct (cleanup s1) as [s2 [[]|e]]; simpl; [reflexivity|discriminate].
Qed.

Lemma try_finally_outcome {A : Type} (body : M S A) (cleanup : M S unit) (s : S) :
  snd (try_finally body cleanup s)
  = match snd (cleanup (fst (body s))) with
    | Ok _ => snd (body s)
    | Raise e => Raise e
    end.
Proof.
  unfold try_finally. destruct (body s) as [s1 r]. simpl.
  destruct (cleanup s1) as [s2 [[]|e]]; reflexivity.
Qed.

Lemma run_ok {A : Type} (m : M S A) (s : S) (a : A) :
  snd (m s) = Ok a -> m s = (fst (m s), Ok a).
Proof. destruct (m s) as [s' r]. simpl. intros ->. reflexivity. Qed.

Lemma run_result {A : Type} (m : M S A) (s : S) (r : result A) :
  snd (m s) = r -> m s = (fst (m s), r).
Proof. destruct (m s) as [s' r']. simpl. intros ->. reflexivity. Qed.

Lemma run_pair {A : Type} (m : M S A) (s : S) : m s = (fst (m s), snd (m s)).
Proof. destruct (m s); reflexivity. Qed.

End Monad.

(** ** Relations kept by a computation, whatever its outcome *)

Section Preserves.

Context {S : Type} (R : S -> S -> Prop) {HR : PreOrder R}.

Lemma preserves_ret {A : Type} (a : A) : preserves R (mret a : M S A).
Proof. intros s. simpl. reflexivity. Qed.

Lemma preserves_raise {A : Type} (e : exn) : preserves R (raise e : M S A).
Proof. intros s. simpl. reflexivity. Qed.

Lemma preserves_gets {A : Type} (f : S -> A) : preserves R (gets f).
Proof. intros s. simpl. reflexivity. Qed.

Lemma preserves_lift_option {A : Type} (e : exn) (o : option A) :
  preserves R (lift_option e o : M S A).
Proof. destruct o; intros s; simpl; reflexivity. Qed.

Lemma preserves_lift_result {A : Type} (r : result A) :
  preserves R (lift_result r : M S A).
Proof. intros s. simpl. reflexivity. Qed.

Lemma preserves_modify (f : S -> S) : (forall s, R s (f s)) -> preserves R (modify f).
Proof. intros H s. apply H. Qed.

Lemma preserves_bind {A B : Type} (m : M S A) (f : A -> M S B) :
  preserves R m -> (forall a, preserves R (f a)) -> preserves R (m ≫= f).
Proof.
  intros Hm Hf s. rewrite bind_run. specialize (Hm s).
  destruct (m s) as [s' [a|e]]; simpl in *; [|exact Hm].
  transitivity s'; [exact Hm|apply Hf].
Qed.

Lemma preserves_try_except {A : Type} (body handler : M S A) :
  preserves R body -> preserves R handler -> preserves R (try_except body handler).
Proof.
  intros Hb Hh s. unfold try_except. specialize (Hb s).
  destruct (body s) as [s' [a|e]]; simpl in *; [exact Hb|].
  transitivity s'; [exact Hb|apply Hh].
Qed.

Lemma preserves_try_finally {A : Type} (body : M S A) (cleanup : M S unit) :
  preserves R body -> preserves R cleanup -> preserves R (try_finally body cleanup).
Proof.
  intros Hb Hc s. unfold try_finally. specialize (Hb s).
  destruct (body s) as [s1 r]. specialize (Hc s1).
  destruct (cleanup s1) as [s2 [[]|e]]; simpl in *; transitivity s1; assumption.
Qed.

Lemma preserves_for_each {A : Type} (l : list A) (body : A -> M S unit) :
  (forall a, preserves R (body a)) -> preserves R (for_each l body).
Proof.
  intros Hb. induction l as [|a l IH]; simpl.
  - apply preserves_ret.
  - apply preserves_bind; [apply Hb|intros _; exact IH].
Qed.

End Preserves.

(** Relative to a starting state: what holds for [op] and then for the
    continuation holds for their sequence. *)
Lemma bind_from {S A B : Type} (R : S -> S -> Prop)
    (op : M S A) (f : A -> M S B) (u0 u : S) :
  R u0 (fst (op u)) ->
  (forall a u1, op u = (u1, Ok a) -> R u0 u1 -> R u0 (fst (f a u1))) ->
  R u0 (fst ((op ≫= f) u)).
Proof.
  intros Hop Hf. rewrite bind_run. destruct (op u) as [u1 [a|e]]; simpl in *.
  - apply Hf; [reflexivity|assumption].
  - assumption.
Qed.

(** ** Invariants kept on return, with a weaker one left by an exception *)

Section Keeps.

Context {S : Type} (I E : S -> Prop) (HIE : forall s, I s -> E s).

Lemma keeps_ret {A : Type} (a : A) : keeps I E (mret a : M S A).
Proof. intros s Hs. exact Hs. Qed.

Lemma keeps_raise {A : Type} (e : exn) : keeps I E (raise e : M S A).
Proof. intros s Hs. apply HIE, Hs. Qed.

Lemma keeps_gets {A : Type} (f : S -> A) : keeps I E (gets f).
Proof. intros s Hs. exact Hs. Qed.

Lemma keeps_lift_option {A : Type} (e : exn) (o : option A) :
  keeps I E (lift_option e o : M S A).
Proof. destruct o; intros s Hs; simpl; auto. Qed.

Lemma keeps_lift_result {A : Type} (r : result A) : keeps I E (lift_result r : M S A).
Proof. destruct r; intros s Hs; simpl; auto. Qed.

Lemma keeps_bind {A B : Type} (m : M S A) (f : A -> M S B) :
  keeps I E m -> (forall a, keeps I E (f a)) -> keeps I E (m ≫= f).
Proof.
  intros Hm Hf s Hs. rewrite bind_run. specialize (Hm s Hs).
  destruct (m s) as [s' [a|e]]; [apply Hf, Hm|exact Hm].
Qed.

Lemma keeps_for_each {A : Type} (l : list A) (body : A -> M S unit) :
  (forall a, keeps I E (body a)) -> keeps I E (for_each l body).
Proof.
  intros Hb. induction l as [|a l IH]; simpl.
  - apply keeps_ret.
  - apply keeps_bind; [apply Hb|intros _; exact IH].
Qed.

(** A computation that only moves the state along a relation under which the
    invariant is stable keeps it, whatever its outcome. *)
Lemma keeps_of_preserves {A : Type} (R : S -> S -> Prop) (m : M S A) :
  (forall s s', I s -> R s s' -> I s') -> preserves R m -> keeps I E m.
Proof.
  intros Hstable Hm s Hs. specialize (Hm s).
  destruct (m s) as [s' [a|e]]; simpl in Hm; [|apply HIE]; eapply Hstable; eassumption.
Qed.

End Keeps.

Ltac keeps_with leaf :=
  repeat first
    [ leaf
    | match goal with
      | |- forall _, keeps _ _ _ => intros ?
      | |- keeps _ _ (if ?b then _ else _) => destruct b
      | |- keeps _ _ (match ?o with _ => _ end) => destruct o
      end
    | apply keeps_ret | apply keeps_raise | apply keeps_gets
    | apply keeps_lift_option | apply keeps_lift_result
    | apply keeps_bind
    | apply keeps_for_each ].

(** Decompose a [preserves] goal along the structure of the computation. *)
Ltac preserves_with leaf :=
  repeat first
    [ leaf
    | match goal with
      | |- PreOrder _ => typeclasses eauto
      | |- forall _, preserves _ _ => intros ?
      | |- preserves _ (if ?b then _ else _) => destruct b
      | |- preserves _ (match ?o with _ => _ end) => destruct o
      end
    | apply preserves_ret | apply preserves_raise | apply preserves_gets
    | apply preserves_lift_option | apply preserves_lift_result
    | apply preserves_bind
    | apply preserves_try_except
    | apply preserves_for_each ].

Ltac preserves_structure := preserves_with fail.

(** Unfold one layer of monadic plumbing after another. *)
Ltac run_monad :=
  repeat first
    [ rewrite bind_run
    | progress (unfold gets, modify, raise, lift_option, lift_result, mret, M_ret)
    | progress simpl ].

(** ** Insertion-ordered dictionaries *)

Lemma dict_get_set_eq {V : Type} (k : string) (v : V) (d : list (string * V)) :
  dict_get k (dict_set k v d) = Some v.
Proof.
  induction d as [|[k' v'] d IH]; simpl.
  - rewrite decide_True; reflexivity.
  - destruct (decide (k' = k)) as [->|Hne]; simpl.
    + rewrite decide_True; reflexivity.
    + rewrite decide_False by assumption. exact IH.
Qed.

Lemma dict_get_set_ne {V : Type} (k k0 : string) (v : V) (d : list (string * V)) :
  k <> k0 -> dict_get k0 (dict_set k v d) = dict_get k0 d.
Proof.
  intros Hne. induction d as [|[k' v'] d IH]; simpl.
  - rewrite decide_False by assumption. reflexivity.
  - destruct (decide (k' = k)) as [->|Hne']; simpl.
    + rewrite !decide_False by assumption. reflexivity.
    + destruct (decide (k' = k0)); [reflexivity|exact IH].
Qed.

Lemma dict_set_absent {V : Type} (k : string) (v : V) (d : list (string * V)) :
  dict_get k d = None -> dict_set k v d = d ++ [(k, v)].
Proof.
  induction d as [|[k' v'] d IH]; simpl; [reflexivity|].
  destruct (decide (k' = k)); [discriminate|]. intros H. rewrite IH by assumption. reflexivity.
Qed.

(** ** One message *)

Section Step.

Context {Payload Stamp Value Image PngInfo Extra : Type}.
Context {env : @Collaborators Payload Stamp Value Image PngInfo Extra}.

Implicit Types (s : @state Value Image PngInfo) (m : @message Payload Stamp).
Implicit Types (cfg : list (@schema_entry Extra)).

Lemma bookkeeping_run topic s :
  bookkeeping topic s =
    (set_topic_msg_counts
       (<[topic := match topic_msg_counts s !! topic with
                   | Some n => n + 1
                   | None => 1
                   end]> (topic_msg_counts s)) s, Ok tt).
Proof.
  unfold bookkeeping, try_except, get_count. rewrite !bind_run. unfold gets.
  destruct (topic_msg_counts s !! topic) as [n|]; reflexivity.
Qed.

Lemma extract_message_other cfg out_dir bag_name m s :
  m_topic m ∉ map rosbag_topic cfg ->
  extract_message cfg out_dir bag_name m s = (s, Ok tt).
Proof.
  intros Hnot. unfold extract_message.
  rewrite bool_decide_eq_false_2 by assumption. reflexivity.
Qed.

Lemma process_message_run cfg out_dir bag_name m s s1 :
  extract_message cfg out_dir bag_name m s = (s1, Ok tt) ->
  process_message cfg out_dir bag_name m s =
    (set_progress (progress s1 + 1)
       (set_topic_msg_counts
          (<[m_topic m := match topic_msg_counts s1 !! m_topic m with
                          | Some n => n + 1
                          | None => 1
                          end]> (topic_msg_counts s1)) s1), Ok tt).
Proof.
  intros H. unfold process_message.
  rewrite (bind_ok _ _ _ _ _ H), bind_run, bookkeeping_run. reflexivity.
Qed.

Lemma process_message_raise cfg out_dir bag_name m s s1 e :
  extract_message cfg out_dir bag_name m s = (s1, Raise e) ->
  process_message cfg out_dir bag_name m s = (s1, Raise e).
Proof. intros H. unfold process_message. apply bind_raise. exact H. Qed.

(** C9: a message whose topic is not configured is skipped: the step
    succeeds and leaves the tabular and image sinks, the world (files,
    directories, images, handles, and the log of calls) and the cursor of
    every configured topic as they were. *)
Theorem unconfigured_topic_frame cfg out_dir bag_name m s :
  m_topic m ∉ map rosbag_topic cfg ->
  exists s',
    process_message cfg out_dir bag_name m s = (s', Ok tt)
    /\ csv_writers s' = csv_writers s
    /\ img_writers s' = img_writers s
    /\ w s' = w s
    /\ forall topic, topic ∈ map rosbag_topic cfg ->
         topic_msg_counts s' !! topic = topic_msg_counts s !! topic.
Proof.
  intros Hnot. eexists. split.
  - apply process_message_run, extract_message_other, Hnot.
  - simpl. repeat split. intros topic Hin.
    apply lookup_insert_ne. intros Heq. subst topic. contradiction.
Qed.

End Step.

Lemma unconfigured_topic_frame_witness :
  exists s',
    process_message (env := Example.env) Example.config "out" "run1" (Example.tf 2)
      (setup Example.config Example.empty_world) = (s', Ok tt)
    /\ csv_writers s' = []
    /\ w s' = Example.empty_world.
Proof.
  destruct (unconfigured_topic_frame (env := Example.env) Example.config "out" "run1"
              (Example.tf 2) (setup Example.config Example.empty_world))
    as (s' & H1 & H2 & _ & H3 & _).
  - intros H. apply list_elem_of_In in H. simpl in H. destruct H as [H|[H|[]]]; discriminate.
  - exists s'. repeat split; assumption.
Defined.

(** ** Tabular sinks *)

Section Tabular.

Context {Payload Stamp Value Image PngInfo Extra : Type}.
Context {env : @Collaborators Payload Stamp Value Image PngInfo Extra}.

Implicit Types (s : @state Value Image PngInfo) (m : @message Payload Stamp).
Implicit Types (x : @world Value Image PngInfo).
Implicit Types (cfg : list (@schema_entry Extra)) (tc : @schema_entry Extra).
Implicit Types (data : gmap string Value) (rowdict : gmap string (@cell Value)).

Lemma extract_message_accepted cfg out_dir bag_name m s tc :
  accepted cfg s m tc ->
  extract_message cfg out_dir bag_name m s =
    if String.eqb (output_type tc) "csv" then extract_csv out_dir bag_name tc m s
    else if String.eqb (output_type tc) "dir_of_imgs" then extract_img out_dir bag_name tc m s
    else (s, Ok tt).
Proof.
  intros (Hin & Hhead & idx & Hidx & Hkeep). unfold extract_message.
  rewrite bool_decide_eq_true_2 by assumption.
  unfold get_count. rewrite !bind_run. unfold gets. rewrite Hidx. simpl.
  rewrite bind_run, Hhead. simpl. rewrite bind_run. unfold lift_result. rewrite Hkeep.
  destruct (String.eqb (output_type tc) "csv"); [reflexivity|].
  destruct (String.eqb (output_type tc) "dir_of_imgs"); reflexivity.
Qed.

Lemma header_lookup (l : list string) (k : string) :
  k ∈ l ->
  (list_to_map (map (fun k => (k, @CStr Value k)) l) : gmap string cell) !! k = Some (CStr k).
Proof.
  induction l as [|k' l IH]; intros Hin; [inversion Hin|]. simpl.
  destruct (decide (k' = k)) as [->|Hne].
  - apply lookup_insert_eq.
  - rewrite lookup_insert_ne by assumption. apply IH.
    apply elem_of_cons in Hin as [?|?]; [congruence|assumption].
Qed.

Lemma header_dom (l : list string) :
  dom (list_to_map (map (fun k => (k, @CStr Value k)) l) : gmap string cell) = list_to_set l.
Proof.
  rewrite dom_list_to_map_L. f_equal.
  induction l; simpl; [reflexivity|f_equal; assumption].
Qed.

Lemma dict_to_list_header (fieldnames : list string) :
  dict_to_list fieldnames
    (list_to_map (map (fun k => (k, @CStr Value k)) (reverse fieldnames)))
  = Ok (map CStr fieldnames).
Proof.
  unfold dict_to_list, wrong_fields. rewrite header_dom.
  rewrite decide_True.
  - f_equal. apply map_ext_in. intros k Hk.
    rewrite header_lookup; [reflexivity|].
    apply elem_of_reverse, list_elem_of_In, Hk.
  - apply set_eq. intros k. rewrite elem_of_difference, !elem_of_list_to_set, elem_of_reverse.
    split; [intros [? ?]; contradiction|intros Hk; inversion Hk].
Qed.

Lemma dict_to_list_data (fieldnames : list string) data :
  (forall k, k ∈ dom data -> k ∈ fieldnames) ->
  dict_to_list fieldnames (CVal <$> data) = Ok (row_of fieldnames data).
Proof.
  intros Hsub. unfold dict_to_list, wrong_fields, row_of. rewrite dom_fmap_L.
  rewrite decide_True.
  - f_equal. apply map_ext. intros k. rewrite lookup_fmap.
    destruct (data !! k); reflexivity.
  - apply set_eq. intros k. rewrite elem_of_difference, elem_of_list_to_set.
    specialize (Hsub k). split; [intros [? ?]; tauto|intros Hk; inversion Hk].
Qed.

Lemma dict_to_list_wrong (fieldnames : list string) data (k : string) :
  k ∈ dom data -> k ∉ fieldnames ->
  dict_to_list fieldnames (CVal <$> data) = Raise ValueError.
Proof.
  intros Hk Hnot. unfold dict_to_list, wrong_fields. rewrite dom_fmap_L.
  rewrite decide_False; [reflexivity|].
  intros Hempty. assert (k ∈ dom data ∖ list_to_set fieldnames) as Hin.
  { rewrite elem_of_difference, elem_of_list_to_set. split; assumption. }
  rewrite Hempty in Hin. inversion Hin.
Qed.

Lemma write_row_open (h : nat) (r : list (@cell Value)) x fh :
  handles x !! h = Some fh -> h_closes fh = 0%nat ->
  write_row h r x =
    ({| files := <[h_path fh := default [] (files x !! h_path fh) ++ [r]]> (files x);
        dirs := dirs x; images := images x; handles := handles x;
        log := log x ++ [EWriteRow h r] |}, Ok tt).
Proof.
  intros Hh Hc. unfold write_row. run_monad. rewrite Hh, Hc. reflexivity.
Qed.

Lemma create_csv_writer_run out_dir bag_name tc (topic msg_type : string) s cols :
  writable (out_dir +:+ "/" +:+ bag_name) = true ->
  writable (csv_file_path out_dir bag_name tc) = true ->
  get_msg_cols msg_type = Some cols ->
  create_csv_writer out_dir bag_name tc topic msg_type s =
    (set_csv_writers
       (dict_set topic {| file := length (handles (w s)); writer := cols;
                          sink_msg_type := msg_type |} (csv_writers s))
       (set_w {| files := <[resolve (csv_file_path out_dir bag_name tc) := [map CStr cols]]>
                            (files (w s));
                 dirs := {[out_dir +:+ "/" +:+ bag_name]} ∪ dirs (w s);
                 images := images (w s);
                 handles := handles (w s)
                            ++ [{| h_path := resolve (csv_file_path out_dir bag_name tc);
                                   h_closes := 0 |}];
                 log := log (w s) ++ [EMkdir (out_dir +:+ "/" +:+ bag_name);
                                      EOpen (csv_file_path out_dir bag_name tc);
                                      EWriteRow (length (handles (w s))) (map CStr cols)] |} s),
     Ok tt).
Proof.
  intros Hw1 Hw2 Hcols. unfold create_csv_writer, in_world, mkdir, open_w.
  run_monad. rewrite Hw1. run_monad. rewrite Hw2. run_monad. rewrite Hcols. run_monad.
  unfold writeheader, writerow. run_monad.
  rewrite dict_to_list_header.
  erewrite write_row_open; [|apply list_lookup_middle; reflexivity|reflexivity].
  simpl. rewrite lookup_insert_eq, insert_insert_eq. simpl.
  rewrite <- !app_assoc. reflexivity.
Qed.


End Tabular.


(** ** Rows of an existing tabular sink *)

Section Rows.

Context {Payload Stamp Value Image PngInfo Extra : Type}.
Context {env : @Collaborators Payload Stamp Value Image PngInfo Extra}.

Implicit Types (s : @state Value Image PngInfo) (m : @message Payload Stamp).
Implicit Types (cfg : list (@schema_entry Extra)) (tc : @schema_entry Extra).
Implicit Types (data : gmap string Value) (sink : csv_sink).

Lemma extract_csv_existing out_dir bag_name tc m s sink data :
  dict_get (m_topic m) (csv_writers s) = Some sink ->
  process_msg_csv (m_type m) (m_msg m) (m_stamp m) (extra_options tc) = Some data ->
  extract_csv out_dir bag_name tc m s = in_world (writerow sink (CVal <$> data)) s.
Proof.
  intros Hsink Hdata. unfold extract_csv. run_monad. rewrite Hsink. run_monad.
  rewrite Hdata. run_monad. rewrite Hsink. reflexivity.
Qed.

Lemma extract_csv_handler_raises out_dir bag_name tc m s sink :
  dict_get (m_topic m) (csv_writers s) = Some sink ->
  process_msg_csv (m_type m) (m_msg m) (m_stamp m) (extra_options tc) = None ->
  extract_csv out_dir bag_name tc m s = (s, Raise (HandlerError (m_type m))).
Proof.
  intros Hsink Hdata. unfold extract_csv. run_monad. rewrite Hsink. run_monad.
  rewrite Hdata. reflexivity.
Qed.

Lemma ensure_csv_writer_run out_dir bag_name tc m s :
  ensure_csv_writer out_dir bag_name tc m s
  = if dict_get (m_topic m) (csv_writers s) is None
    then create_csv_writer out_dir bag_name tc (m_topic m) (m_type m) s
    else (s, Ok tt).
Proof.
  unfold ensure_csv_writer. rewrite bind_run.
  change (gets csv_writers s) with (s, Ok (csv_writers s)). cbv beta iota.
  destruct (dict_get (m_topic m) (csv_writers s)); reflexivity.
Qed.

Lemma extract_csv_split out_dir bag_name tc m s :
  extract_csv out_dir bag_name tc m s =
    match ensure_csv_writer out_dir bag_name tc m s with
    | (s1, Ok _) => write_message_row tc m s1
    | (s1, Raise e) => (s1, Raise e)
    end.
Proof.
  unfold extract_csv, ensure_csv_writer, write_message_row. rewrite !bind_run.
  change (gets csv_writers s) with (s, Ok (csv_writers s)). cbv beta iota.
  rewrite bind_run. reflexivity.
Qed.




End Rows.


Lemma accepted_after_two (bag_name : string) (stamp : Z) :
  accepted Example.config (Example.after_two bag_name) (Example.cmd_vel stamp)
    Example.twist_config.
Proof.
  split; [apply list_elem_of_In; simpl; auto|].
  split; [reflexivity|]. exists 2. split; reflexivity.
Qed.



(** ** Sinks are created once *)

Section Sinks.

Context {Payload Stamp Value Image PngInfo Extra : Type}.
Context {env : @Collaborators Payload Stamp Value Image PngInfo Extra}.

Implicit Types (s : @state Value Image PngInfo) (m : @message Payload Stamp).
Implicit Types (x : @world Value Image PngInfo).
Implicit Types (cfg : list (@schema_entry Extra)) (tc : @schema_entry Extra).

#[local] Instance sinks_kept_preorder : PreOrder (@sinks_kept Value Image PngInfo).
Proof.
  split.
  - intros s. split; intros; assumption.
  - intros s1 s2 s3 [H1 H2] [H3 H4]. split; intros; auto.
Qed.

#[local] Instance same_sinks_preorder : PreOrder (@same_sinks Value Image PngInfo).
Proof.
  split.
  - intros s. split; reflexivity.
  - intros s1 s2 s3 [H1 H2] [H3 H4]. split; congruence.
Qed.

Lemma same_sinks_kept s s' : same_sinks s s' -> sinks_kept s s'.
Proof. intros [H1 H2]. split; intros ? ?; rewrite ?H1, ?H2; auto. Qed.

Lemma in_world_run {A : Type} (op : M (@world Value Image PngInfo) A) s :
  in_world op s = (set_w (fst (op (w s))) s, snd (op (w s))).
Proof. unfold in_world. destruct (op (w s)); reflexivity. Qed.

Lemma in_world_same_sinks {A : Type} (op : M (@world Value Image PngInfo) A) :
  preserves same_sinks (in_world op).
Proof. intros s. rewrite in_world_run. split; reflexivity. Qed.

Lemma set_w_same s : set_w (w s) s = s.
Proof. destruct s; reflexivity. Qed.

Lemma create_csv_writer_same_then_set out_dir bag_name tc (topic msg_type : string) s s' r :
  create_csv_writer out_dir bag_name tc topic msg_type s = (s', r) ->
  img_writers s' = img_writers s
  /\ (csv_writers s' = csv_writers s
      \/ exists sink, csv_writers s' = dict_set topic sink (csv_writers s)).
Proof.
  unfold create_csv_writer. rewrite bind_run, in_world_run.
  destruct (snd (mkdir _ _)); [|intros [= <- <-]; split; [reflexivity|left; reflexivity]].
  rewrite bind_run, in_world_run.
  destruct (snd (open_w _ _)); [|intros [= <- <-]; split; [reflexivity|left; reflexivity]].
  rewrite bind_run. destruct (get_msg_cols msg_type); simpl;
    [|intros [= <- <-]; split; [reflexivity|left; reflexivity]].
  rewrite bind_run, in_world_run.
  destruct (snd (writeheader _ _)); [|intros [= <- <-]; split; [reflexivity|left; reflexivity]].
  intros [= <- <-]. split; [reflexivity|right; eexists; reflexivity].
Qed.

Lemma create_csv_writer_kept out_dir bag_name tc (topic msg_type : string) s :
  dict_get topic (csv_writers s) = None ->
  sinks_kept s (fst (create_csv_writer out_dir bag_name tc topic msg_type s)).
Proof.
  intros Hnone.
  destruct (create_csv_writer out_dir bag_name tc topic msg_type s) as [s' r] eqn:Hc.
  apply create_csv_writer_same_then_set in Hc as [Himg [Hcsv|[sink Hcsv]]]; simpl.
  - apply same_sinks_kept. split; assumption.
  - split; [|intros; rewrite Himg; assumption].
    intros t sk Ht. rewrite Hcsv, dict_get_set_ne; [assumption|].
    intros ->. congruence.
Qed.

Lemma in_world_kept {A : Type} (op : M (@world Value Image PngInfo) A) :
  preserves sinks_kept (in_world op).
Proof. intros s. apply same_sinks_kept, in_world_same_sinks. Qed.

Lemma extract_csv_kept out_dir bag_name tc m : preserves sinks_kept (extract_csv out_dir bag_name tc m).
Proof.
  intros s. unfold extract_csv. rewrite bind_run.
  change (gets csv_writers s) with (s, Ok (csv_writers s)). cbv beta iota.
  apply bind_from.
  - destruct (dict_get (m_topic m) (csv_writers s)) eqn:Hget.
    + simpl. reflexivity.
    + apply create_csv_writer_kept, Hget.
  - intros _ s1 _ Hs1. transitivity s1; [exact Hs1|].
    refine ((_ : preserves sinks_kept _) s1).
    preserves_structure; apply in_world_kept.
Qed.

Lemma extract_img_kept out_dir bag_name tc m : preserves sinks_kept (extract_img out_dir bag_name tc m).
Proof.
  intros s. unfold extract_img. rewrite bind_run.
  change (gets img_writers s) with (s, Ok (img_writers s)). cbv beta iota.
  apply bind_from.
  - destruct (img_writers s !! m_topic m) eqn:Hget.
    + simpl. reflexivity.
    + rewrite bind_run, in_world_run.
      destruct (snd (mkdir _ _)); simpl; [|apply same_sinks_kept; split; reflexivity].
      split; [intros; assumption|]. intros t sk Ht. unfold set_img_writers. simpl.
      rewrite lookup_insert_ne; [assumption|]. intros <-. congruence.
  - intros _ s1 _ Hs1. transitivity s1; [exact Hs1|].
    refine ((_ : preserves sinks_kept _) s1).
    unfold get_count. preserves_structure; apply in_world_kept.
Qed.

Lemma bookkeeping_kept (topic : string) : preserves sinks_kept (@bookkeeping Value Image PngInfo topic).
Proof. intros s. rewrite bookkeeping_run. split; intros; assumption. Qed.

Lemma process_message_kept cfg out_dir bag_name m :
  preserves sinks_kept (process_message cfg out_dir bag_name m).
Proof.
  unfold process_message, extract_message, get_count.
  preserves_with ltac:(first
    [ apply extract_csv_kept | apply extract_img_kept | apply bookkeeping_kept
    | apply preserves_modify; intros s; split; intros; assumption ]).
Qed.

Lemma extract_csv_ok_sink out_dir bag_name tc m s s' :
  extract_csv out_dir bag_name tc m s = (s', Ok tt) ->
  exists sink, dict_get (m_topic m) (csv_writers s') = Some sink.
Proof.
  unfold extract_csv. rewrite bind_run.
  change (gets csv_writers s) with (s, Ok (csv_writers s)). cbv beta iota.
  rewrite bind_run.
  match goal with
  | |- match ?t with _ => _ end = _ -> _ => destruct t as [s1 [[]|e]]; [|discriminate]
  end.
  rewrite bind_run.
  destruct (process_msg_csv _ _ _ _) as [data|]; simpl; [|discriminate].
  rewrite !bind_run. simpl.
  destruct (dict_get (m_topic m) (csv_writers s1)) as [sink|] eqn:Hsink; simpl; [|discriminate].
  rewrite bind_run. simpl. rewrite in_world_run. intros [= <- _]. exists sink. exact Hsink.
Qed.

Lemma extract_img_ok_sink out_dir bag_name tc m s s' :
  extract_img out_dir bag_name tc m s = (s', Ok tt) ->
  exists sink, img_writers s' !! m_topic m = Some sink.
Proof.
  intros Hrun.
  assert (exists s1, img_writers s1 !! m_topic m <> None /\ same_sinks s1 s') as (s1 & Hs1 & Hsame).
  { revert Hrun. unfold extract_img. rewrite bind_run.
    change (gets img_writers s) with (s, Ok (img_writers s)). cbv beta iota.
    rewrite bind_run.
    match goal with
    | |- match ?t with _ => _ end = _ -> _ =>
        destruct t as [s1 [[]|e]] eqn:Hif; [|discriminate]
    end.
    intros Htail. exists s1. split.
    - destruct (img_writers s !! m_topic m) eqn:Hget.
      + injection Hif as <-. congruence.
      + revert Hif. rewrite bind_run, in_world_run.
        destruct (snd (mkdir _ _)); [|discriminate].
        intros [= <-]. unfold set_img_writers. simpl. rewrite lookup_insert_eq. discriminate.
    - replace s' with (fst ((processed_data ← lift_option (HandlerError (m_type m))
         (process_msg_img (m_type m) (m_msg m) (m_stamp m) (extra_options tc));
       idx ← get_count (m_topic m);
       in_world (save (img_file_path out_dir bag_name tc idx)
                      (fst processed_data) (snd processed_data))) s1))
        by (rewrite Htail; reflexivity).
      refine ((_ : preserves same_sinks _) s1).
      unfold get_count. preserves_with ltac:(apply in_world_same_sinks). }
  destruct Hsame as [_ Himg]. rewrite Himg.
  destruct (img_writers s1 !! m_topic m) as [sink|]; [exists sink; reflexivity|contradiction].
Qed.

Lemma dict_to_list_cases (fieldnames : list string) (data : gmap string Value) :
  dict_to_list fieldnames (CVal <$> data) = Ok (row_of fieldnames data)
  \/ dict_to_list fieldnames (CVal <$> data) = Raise ValueError.
Proof.
  unfold dict_to_list. destruct (decide _); [left|right; reflexivity].
  f_equal. apply map_ext. intros k. rewrite lookup_fmap. destruct (data !! k); reflexivity.
Qed.

Lemma write_row_effect (h : nat) (r : list (@cell Value)) x :
  let x' := fst (write_row h r x) in
  handles x' = handles x /\ dirs x' = dirs x /\ images x' = images x
  /\ log x' = log x ++ [EWriteRow h r].
Proof.
  unfold write_row. run_monad.
  destruct (handles x !! h) as [fh|]; simpl; [|repeat split].
  destruct (h_closes fh =? 0)%nat; simpl; repeat split.
Qed.

Lemma save_effect (p : string) (img : Image) (meta : PngInfo) x :
  let x' := fst (save p img meta x) in
  handles x' = handles x /\ dirs x' = dirs x /\ files x' = files x
  /\ log x' = log x ++ [ESave p].
Proof. unfold save. run_monad. destruct (writable p); simpl; repeat split. Qed.

Lemma close_effect (h : nat) x :
  let x' := fst (close h x) in
  handles x' = alter closed_once h (handles x)
  /\ dirs x' = dirs x /\ files x' = files x /\ images x' = images x
  /\ log x' = log x ++ [EClose h].
Proof.
  unfold close. run_monad.
  destruct (handles x !! h) as [fh|]; simpl; [|repeat split].
  destruct ((h_closes fh =? 0)%nat && negb (flushes (h_path fh))); simpl; repeat split.
Qed.

Lemma close_result (h : nat) x :
  snd (close h x)
  = match handles x !! h with
    | Some fh =>
        if (h_closes fh =? 0)%nat && negb (flushes (h_path fh))
        then Raise (OSError (h_path fh))
        else Ok tt
    | None => Ok tt
    end.
Proof.
  unfold close. run_monad.
  destruct (handles x !! h) as [fh|]; simpl; [|reflexivity].
  destruct ((h_closes fh =? 0)%nat && negb (flushes (h_path fh))); reflexivity.
Qed.

Lemma process_message_cases cfg out_dir bag_name m s s' r :
  process_message cfg out_dir bag_name m s = (s', r) ->
  (exists s1, extract_message cfg out_dir bag_name m s = (s1, Ok tt)
              /\ same_sinks s1 s' /\ w s' = w s1)
  \/ (exists e, extract_message cfg out_dir bag_name m s = (s', Raise e)).
Proof.
  intros Hrun. destruct (extract_message cfg out_dir bag_name m s) as [s1 [[]|e]] eqn:Hext.
  - left. exists s1. rewrite (process_message_run _ _ _ _ _ _ Hext) in Hrun.
    injection Hrun as <- _. split; [reflexivity|]. split; [split|]; reflexivity.
  - right. exists e. rewrite (process_message_raise _ _ _ _ _ _ _ Hext) in Hrun.
    injection Hrun as <- _. reflexivity.
Qed.

Lemma reuse_csv cfg out_dir bag_name m s tc sink s' r :
  accepted cfg s m tc -> output_type tc = "csv" ->
  dict_get (m_topic m) (csv_writers s) = Some sink ->
  process_message cfg out_dir bag_name m s = (s', r) ->
  same_sinks s s'
  /\ handles (w s') = handles (w s) /\ dirs (w s') = dirs (w s)
  /\ (log (w s') = log (w s)
      \/ exists data,
           process_msg_csv (m_type m) (m_msg m) (m_stamp m) (extra_options tc) = Some data
           /\ log (w s') = log (w s) ++ [EWriteRow (file sink) (row_of (writer sink) data)]).
Proof.
  intros Hacc Htype Hsink Hrun.
  pose proof (extract_message_accepted cfg out_dir bag_name m s tc Hacc) as Hext.
  rewrite Htype in Hext. simpl in Hext.
  assert (forall s1 r1, extract_csv out_dir bag_name tc m s = (s1, r1) ->
            same_sinks s s1
            /\ handles (w s1) = handles (w s) /\ dirs (w s1) = dirs (w s)
            /\ (log (w s1) = log (w s)
                \/ exists data,
                     process_msg_csv (m_type m) (m_msg m) (m_stamp m) (extra_options tc)
                       = Some data
                     /\ log (w s1) = log (w s)
                          ++ [EWriteRow (file sink) (row_of (writer sink) data)])) as Hcsv.
  { intros s1 r1.
    destruct (process_msg_csv (m_type m) (m_msg m) (m_stamp m) (extra_options tc))
      as [data|] eqn:Hdata.
    - rewrite (extract_csv_existing _ _ _ _ _ _ _ Hsink Hdata), in_world_run.
      unfold writerow. rewrite bind_run. unfold lift_result.
      destruct (dict_to_list_cases (writer sink) data) as [-> | ->].
      + intros [= <- _]. simpl.
        destruct (write_row_effect (file sink) (row_of (writer sink) data) (w s))
          as (Hh & Hd & _ & Hl).
        split; [split; reflexivity|]. split; [exact Hh|]. split; [exact Hd|].
        right. exists data. split; [reflexivity|exact Hl].
      + intros [= <- _]. simpl.
        split; [split; reflexivity|]. repeat split. left. reflexivity.
    - rewrite (extract_csv_handler_raises _ _ _ _ _ _ Hsink Hdata).
      intros [= <- _]. split; [split; reflexivity|]. repeat split. left. reflexivity. }
  apply process_message_cases in Hrun as [(s1 & Hs1 & Hsame & Hw)|(e & He)].
  - rewrite Hext in Hs1. apply Hcsv in Hs1 as (Hk & Hh & Hd & Hl).
    split; [etransitivity; eassumption|]. rewrite Hw. repeat split; assumption.
  - rewrite Hext in He. apply Hcsv in He. exact He.
Qed.

Lemma reuse_img cfg out_dir bag_name m s tc sink s' r :
  accepted cfg s m tc -> output_type tc = "dir_of_imgs" ->
  img_writers s !! m_topic m = Some sink ->
  process_message cfg out_dir bag_name m s = (s', r) ->
  same_sinks s s'
  /\ handles (w s') = handles (w s) /\ dirs (w s') = dirs (w s)
  /\ (log (w s') = log (w s)
      \/ exists idx,
           topic_msg_counts s !! m_topic m = Some idx
           /\ log (w s') = log (w s) ++ [ESave (img_file_path out_dir bag_name tc idx)]).
Proof.
  intros Hacc Htype Hsink Hrun.
  pose proof (extract_message_accepted cfg out_dir bag_name m s tc Hacc) as Hext.
  rewrite Htype in Hext. simpl in Hext.
  destruct Hacc as (_ & _ & idx & Hidx & _).
  assert (forall s1 r1, extract_img out_dir bag_name tc m s = (s1, r1) ->
            same_sinks s s1
            /\ handles (w s1) = handles (w s) /\ dirs (w s1) = dirs (w s)
            /\ (log (w s1) = log (w s)
                \/ exists idx,
                     topic_msg_counts s !! m_topic m = Some idx
                     /\ log (w s1) = log (w s)
                          ++ [ESave (img_file_path out_dir bag_name tc idx)])) as Himg.
  { intros s1 r1. unfold extract_img. run_monad. rewrite Hsink. run_monad.
    destruct (process_msg_img (m_type m) (m_msg m) (m_stamp m) (extra_options tc))
      as [[img meta]|]; run_monad.
    - unfold get_count. run_monad. rewrite Hidx. run_monad. rewrite in_world_run.
      intros [= <- _]. simpl.
      destruct (save_effect (img_file_path out_dir bag_name tc idx) img meta (w s))
        as (Hh & Hd & _ & Hl).
      split; [split; reflexivity|]. split; [exact Hh|]. split; [exact Hd|].
      right. exists idx. split; [reflexivity|exact Hl].
    - intros [= <- _]. split; [split; reflexivity|]. repeat split. left. reflexivity. }
  apply process_message_cases in Hrun as [(s1 & Hs1 & Hsame & Hw)|(e & He)].
  - rewrite Hext in Hs1. apply Himg in Hs1 as (Hk & Hh & Hd & Hl).
    split; [etransitivity; eassumption|]. rewrite Hw. repeat split; assumption.
  - rewrite Hext in He. apply Himg in He. exact He.
Qed.

(** C7: once a message of a topic has been accepted in a bag, a later
    accepted message of that topic uses the sink made for the first one.
    For a table: the same handle, columns and message type; no file is
    opened, and the only call is the write of the data row (no header).  For
    images: the same directory record; no directory is made, and the only
    call is the save of the frame. *)
Theorem sink_created_once cfg out_dir bag_name tc m1 m2
    (between : list (@message Payload Stamp)) s0 s1 s2 s3 r :
  accepted cfg s0 m1 tc ->
  process_message cfg out_dir bag_name m1 s0 = (s1, Ok tt) ->
  for_each between (process_message cfg out_dir bag_name) s1 = (s2, Ok tt) ->
  m_topic m2 = m_topic m1 ->
  accepted cfg s2 m2 tc ->
  process_message cfg out_dir bag_name m2 s2 = (s3, r) ->
  (output_type tc = "csv" ->
     exists sink,
       dict_get (m_topic m1) (csv_writers s1) = Some sink
       /\ dict_get (m_topic m1) (csv_writers s3) = Some sink
       /\ handles (w s3) = handles (w s2)
       /\ dirs (w s3) = dirs (w s2)
       /\ (log (w s3) = log (w s2)
           \/ exists data,
                process_msg_csv (m_type m2) (m_msg m2) (m_stamp m2) (extra_options tc)
                  = Some data
                /\ log (w s3) = log (w s2)
                     ++ [EWriteRow (file sink) (row_of (writer sink) data)]))
  /\ (output_type tc = "dir_of_imgs" ->
      exists sink,
        img_writers s1 !! m_topic m1 = Some sink
        /\ img_writers s3 !! m_topic m1 = Some sink
        /\ handles (w s3) = handles (w s2)
        /\ dirs (w s3) = dirs (w s2)
        /\ (log (w s3) = log (w s2)
            \/ exists idx,
                 topic_msg_counts s2 !! m_topic m2 = Some idx
                 /\ log (w s3) = log (w s2)
                      ++ [ESave (img_file_path out_dir bag_name tc idx)])).
Proof.
  intros Hacc1 Hrun1 Hbetween Htopic Hacc2 Hrun2.
  pose proof (extract_message_accepted cfg out_dir bag_name m1 s0 tc Hacc1) as Hext.
  destruct (process_message_cases _ _ _ _ _ _ _ Hrun1)
    as [(s1' & Hs1' & [Hc1 Hi1] & _)|(e & He)].
  2: { apply process_message_raise in He. congruence. }
  assert (sinks_kept s1 s2) as [Hkc Hki].
  { replace s2 with (fst (for_each between (process_message cfg out_dir bag_name) s1))
      by (rewrite Hbetween; reflexivity).
    refine ((_ : preserves sinks_kept _) s1).
    apply preserves_for_each; [typeclasses eauto|intros a; apply process_message_kept]. }
  split; intros Htype; rewrite Htype in Hext; simpl in Hext; rewrite Hext in Hs1'.
  - apply extract_csv_ok_sink in Hs1' as [sink Hsink]. rewrite <- Hc1 in Hsink.
    exists sink. split; [exact Hsink|].
    apply Hkc in Hsink. rewrite <- Htopic in Hsink.
    destruct (reuse_csv _ _ _ _ _ _ _ _ _ Hacc2 Htype Hsink Hrun2)
      as ([Hc3 _] & Hh & Hd & Hl).
    rewrite Hc3, <- Htopic. repeat split; assumption.
  - apply extract_img_ok_sink in Hs1' as [sink Hsink]. rewrite <- Hi1 in Hsink.
    exists sink. split; [exact Hsink|].
    apply Hki in Hsink. rewrite <- Htopic in Hsink.
    destruct (reuse_img _ _ _ _ _ _ _ _ _ Hacc2 Htype Hsink Hrun2)
      as ([_ Hi3] & Hh & Hd & Hl).
    rewrite Hi3, <- Htopic. repeat split; assumption.
Qed.

End Sinks.

Lemma accepted_first_twist :
  accepted Example.config (setup Example.config Example.empty_world) (Example.cmd_vel 10)
    Example.twist_config.
Proof.
  split; [apply list_elem_of_In; simpl; auto|].
  split; [reflexivity|]. exists 0. split; reflexivity.
Qed.

Lemma sink_created_once_witness :
  let step := process_message (env := Example.env) Example.config "out" "run1" in
  exists s1 s2 s3 sink,
    for_each [Example.cmd_vel 11] step s1 = (s2, Ok tt)
    /\ fst (step (Example.cmd_vel 12) s2) = s3
    /\ dict_get "/cmd_vel" (csv_writers s1) = Some sink
    /\ dict_get "/cmd_vel" (csv_writers s3) = Some sink
    /\ handles (w s3) = handles (w s2)
    /\ dirs (w s3) = dirs (w s2).
Proof.
  intros step.
  pose (s0 := setup Example.config Example.empty_world).
  assert (step (Example.cmd_vel 10) s0 = (fst (step (Example.cmd_vel 10) s0), Ok tt)) as H1.
  { apply run_result. vm_compute; reflexivity. }
  assert (for_each [Example.cmd_vel 11] step (fst (step (Example.cmd_vel 10) s0))
          = (fst (for_each [Example.cmd_vel 11] step (fst (step (Example.cmd_vel 10) s0))),
             Ok tt)) as H2.
  { apply run_result. vm_compute; reflexivity. }
  assert (accepted Example.config
            (fst (for_each [Example.cmd_vel 11] step (fst (step (Example.cmd_vel 10) s0))))
            (Example.cmd_vel 12) Example.twist_config) as Hacc.
  { split; [apply list_elem_of_In; simpl; auto|].
    split; [reflexivity|]. exists 2. split; vm_compute; reflexivity. }
  destruct (sink_created_once (env := Example.env) Example.config "out" "run1"
              Example.twist_config (Example.cmd_vel 10) (Example.cmd_vel 12)
              [Example.cmd_vel 11] s0 _ _ _ _
              accepted_first_twist H1 H2 eq_refl Hacc (run_pair _ _)) as [H _].
  destruct (H eq_refl) as (sink & Hs1 & Hs3 & Hh & Hd & _).
  eexists _, _, _, sink. split; [exact H2|]. split; [reflexivity|].
  repeat split; assumption.
Defined.

(** ** Cursors *)

Section Cursors.

Context {Payload Stamp Value Image PngInfo Extra : Type}.
Context {env : @Collaborators Payload Stamp Value Image PngInfo Extra}.

Implicit Types (s : @state Value Image PngInfo) (m : @message Payload Stamp).
Implicit Types (x : @world Value Image PngInfo).
Implicit Types (cfg : list (@schema_entry Extra)) (tc : @schema_entry Extra).

#[local] Instance same_counts_preorder : PreOrder (@same_counts Value Image PngInfo).
Proof.
  split.
  - intros s. reflexivity.
  - intros s1 s2 s3 H1 H2. unfold same_counts in *. congruence.
Qed.

Lemma in_world_same_counts {A : Type} (op : M (@world Value Image PngInfo) A) :
  preserves same_counts (in_world op).
Proof. intros s. rewrite in_world_run. reflexivity. Qed.

Lemma extract_message_same_counts cfg out_dir bag_name m :
  preserves same_counts (extract_message cfg out_dir bag_name m).
Proof.
  unfold extract_message, extract_csv, create_csv_writer, extract_img, get_count.
  preserves_with ltac:(first
    [ apply in_world_same_counts
    | apply preserves_modify; intros s; reflexivity ]).
Qed.

Lemma process_message_counts cfg out_dir bag_name m s s' :
  process_message cfg out_dir bag_name m s = (s', Ok tt) ->
  topic_msg_counts s' =
    <[m_topic m := match topic_msg_counts s !! m_topic m with
                   | Some n => n + 1
                   | None => 1
                   end]> (topic_msg_counts s).
Proof.
  intros Hrun.
  destruct (extract_message cfg out_dir bag_name m s) as [s1 [[]|e]] eqn:Hext.
  - pose proof (extract_message_same_counts cfg out_dir bag_name m s) as Hsame.
    rewrite Hext in Hsame. unfold same_counts in Hsame. simpl in Hsame.
    rewrite (process_message_run _ _ _ _ _ _ Hext) in Hrun.
    injection Hrun as <-. simpl. rewrite Hsame. reflexivity.
  - rewrite (process_message_raise _ _ _ _ _ _ _ Hext) in Hrun. discriminate.
Qed.

(** The number of messages of a topic in a list. *)
Lemma for_each_counts cfg out_dir bag_name (pre : list (@message Payload Stamp)) s s'
    (topic : string) (n : Z) :
  for_each pre (process_message cfg out_dir bag_name) s = (s', Ok tt) ->
  topic_msg_counts s !! topic = Some n ->
  topic_msg_counts s' !! topic
  = Some (n + Z.of_nat (length (filter (fun m => m_topic m = topic) pre))).
Proof.
  revert s n. induction pre as [|m pre IH]; intros s n Hrun Hn; simpl in Hrun.
  - injection Hrun as <-. simpl. rewrite Z.add_0_r. exact Hn.
  - rewrite bind_run in Hrun.
    destruct (process_message cfg out_dir bag_name m s) as [s1 [[]|e]] eqn:Hstep;
      [|discriminate].
    apply process_message_counts in Hstep.
    rewrite filter_cons. destruct (decide (m_topic m = topic)) as [Heq|Hne].
    + rewrite (IH s1 (n + 1) Hrun).
      * f_equal. simpl length. lia.
      * rewrite Hstep, Heq, Hn. apply lookup_insert_eq.
    + apply (IH s1 n Hrun). rewrite Hstep. rewrite lookup_insert_ne; assumption.
Qed.

Lemma setup_counts cfg x (topic : string) :
  topic ∈ map rosbag_topic cfg ->
  topic_msg_counts (setup cfg x) !! topic = Some 0.
Proof.
  unfold setup. simpl. generalize (map rosbag_topic cfg). intros l Hin.
  assert (forall (d : gmap string Z),
            topic ∈ l \/ d !! topic = Some 0 ->
            foldl (fun d t => <[t := 0]> d) d l !! topic = Some 0) as Hgen.
  { clear Hin. induction l as [|t l IH]; intros d Hd; simpl.
    - destruct Hd as [Hd|Hd]; [inversion Hd|exact Hd].
    - apply IH. destruct (decide (t = topic)) as [->|Hne].
      + right. apply lookup_insert_eq.
      + destruct Hd as [Hd|Hd].
        * left. apply elem_of_cons in Hd as [?|?]; [congruence|assumption].
        * right. rewrite lookup_insert_ne; assumption. }
  apply Hgen. left. exact Hin.
Qed.

Lemma extract_img_run out_dir bag_name tc m s (idx : Z) (img : Image) (meta : PngInfo) :
  topic_msg_counts s !! m_topic m = Some idx ->
  process_msg_img (m_type m) (m_msg m) (m_stamp m) (extra_options tc) = Some (img, meta) ->
  writable (img_full_dir out_dir bag_name tc) = true ->
  writable (img_file_path out_dir bag_name tc idx) = true ->
  exists s',
    extract_img out_dir bag_name tc m s = (s', Ok tt)
    /\ topic_msg_counts s' = topic_msg_counts s
    /\ images (w s') !! img_file_path out_dir bag_name tc idx = Some (img, meta)
    /\ last (log (w s')) = Some (ESave (img_file_path out_dir bag_name tc idx)).
Proof.
  intros Hidx Himg Hw1 Hw2. unfold extract_img. run_monad.
  destruct (img_writers s !! m_topic m); run_monad.
  - rewrite Himg. run_monad. unfold get_count. run_monad. rewrite Hidx. run_monad.
    unfold in_world, save. run_monad. rewrite Hw2. run_monad.
    eexists. split; [reflexivity|]. simpl. split; [reflexivity|].
    split; [apply lookup_insert_eq|apply last_snoc].
  - unfold in_world at 1, mkdir. run_monad. rewrite Hw1. run_monad.
    rewrite Himg. run_monad. unfold get_count. run_monad. rewrite Hidx. run_monad.
    unfold in_world, save. run_monad. rewrite Hw2. run_monad.
    eexists. split; [reflexivity|]. simpl. split; [reflexivity|].
    split; [apply lookup_insert_eq|apply last_snoc].
Qed.

(** C5: within a bag the cursor of every configured topic starts at zero
    and, after any successfully processed prefix of the bag, equals the
    number of messages of that topic in the prefix, sampled or not; an
    accepted image message is then saved under the name of that number, and
    the cursor moves on by one. *)
Theorem cursor_counts_messages cfg out_dir bag_name
    (pre : list (@message Payload Stamp)) x s :
  for_each pre (process_message cfg out_dir bag_name) (setup cfg x) = (s, Ok tt) ->
  (forall topic, topic ∈ map rosbag_topic cfg ->
     topic_msg_counts (setup cfg x) !! topic = Some 0
     /\ topic_msg_counts s !! topic
        = Some (Z.of_nat (length (filter (fun m => m_topic m = topic) pre))))
  /\ (forall m tc (img : Image) (meta : PngInfo),
       let cursor := Z.of_nat (length (filter (fun m' => m_topic m' = m_topic m) pre)) in
       accepted cfg s m tc ->
       output_type tc = "dir_of_imgs" ->
       process_msg_img (m_type m) (m_msg m) (m_stamp m) (extra_options tc)
         = Some (img, meta) ->
       writable (img_full_dir out_dir bag_name tc) = true ->
       writable (img_file_path out_dir bag_name tc cursor) = true ->
       exists s',
         process_message cfg out_dir bag_name m s = (s', Ok tt)
         /\ images (w s') !! img_file_path out_dir bag_name tc cursor = Some (img, meta)
         /\ last (log (w s')) = Some (ESave (img_file_path out_dir bag_name tc cursor))
         /\ topic_msg_counts s' !! m_topic m = Some (cursor + 1)).
Proof.
  intros Hrun.
  assert (forall topic, topic ∈ map rosbag_topic cfg ->
            topic_msg_counts s !! topic
            = Some (Z.of_nat (length (filter (fun m => m_topic m = topic) pre)))) as Hcount.
  { intros topic Hin.
    rewrite (for_each_counts _ _ _ _ _ _ topic 0 Hrun (setup_counts cfg x topic Hin)).
    reflexivity. }
  split.
  - intros topic Hin. split; [apply setup_counts, Hin|apply Hcount, Hin].
  - intros m tc img meta cursor Hacc Htype Himg Hw1 Hw2.
    pose proof (extract_message_accepted cfg out_dir bag_name m s tc Hacc) as Hext.
    rewrite Htype in Hext. simpl in Hext.
    destruct Hacc as (Hin & _). specialize (Hcount _ Hin). fold cursor in Hcount.
    destruct (extract_img_run out_dir bag_name tc m s cursor img meta Hcount Himg Hw1 Hw2)
      as (s1 & Hs1 & Hc1 & Him & Hlast).
    rewrite <- Hext in Hs1. eexists. split; [apply process_message_run, Hs1|].
    simpl. split; [exact Him|]. split; [exact Hlast|].
    rewrite Hc1, Hcount. apply lookup_insert_eq.
Qed.

End Cursors.

Lemma cursor_counts_messages_witness :
  let pre := [Example.cmd_vel 10; Example.cam 10; Example.cmd_vel 11] in
  let s := fst (for_each pre (process_message (env := Example.env) Example.config "out" "run1")
                  (setup Example.config Example.empty_world)) in
  topic_msg_counts s !! "/cmd_vel" = Some 2
  /\ topic_msg_counts s !! "/cam" = Some 1
  /\ exists s',
       process_message (env := Example.env) Example.config "out" "run1" (Example.cam 11) s
       = (s', Ok tt)
       /\ images (w s') !! "out/run1/cam/1.png" = Some ("frame", "meta")
       /\ topic_msg_counts s' !! "/cam" = Some 2.
Proof.
  intros pre s.
  destruct (cursor_counts_messages (env := Example.env) Example.config "out" "run1" pre
              Example.empty_world s
              (run_ok (for_each pre (process_message (env := Example.env)
                                       Example.config "out" "run1"))
                      (setup Example.config Example.empty_world) tt eq_refl))
    as [Hcount Hsave].
  split; [apply (Hcount "/cmd_vel"); apply list_elem_of_In; simpl; auto|].
  split; [apply (Hcount "/cam"); apply list_elem_of_In; simpl; auto|].
  destruct (Hsave (Example.cam 11) (infer_end_idx_entry Example.cam_entry) "frame" "meta")
    as (s' & H1 & H2 & _ & H3); try reflexivity.
  - split; [apply list_elem_of_In; simpl; auto|].
    split; [reflexivity|]. exists 1. split; reflexivity.
  - exists s'. repeat split; assumption.
Defined.

(** ** The batch driver *)

Section Sorting.







Lemma enumerate_from_app {A : Type} (i : Z) (l1 l2 : list A) :
  enumerate_from i (l1 ++ l2)
  = enumerate_from i l1 ++ enumerate_from (i + Z.of_nat (length l1)) l2.
Proof.
  revert i. induction l1 as [|a l1 IH]; intros i; simpl.
  - rewrite Z.add_0_r. reflexivity.
  - rewrite IH. do 3 f_equal. lia.
Qed.

End Sorting.

Section Batch.

Context {Payload Stamp Value Image PngInfo Extra : Type}.
Context {env : @Collaborators Payload Stamp Value Image PngInfo Extra}.

Implicit Types (s : @state Value Image PngInfo) (m : @message Payload Stamp).
Implicit Types (x : @world Value Image PngInfo).
Implicit Types (cfg : list (@schema_entry Extra)) (tc : @schema_entry Extra).

#[local] Abbreviation quietW := (@quiet Value Image PngInfo).

#[local] Instance quiet_preorder : PreOrder (@quiet Value Image PngInfo).
Proof.
  split.
  - intros x. exists []. split; [symmetry; apply app_nil_r|reflexivity].
  - intros x1 x2 x3 (e1 & H1 & I1) (e2 & H2 & I2). exists (e1 ++ e2). split.
    + rewrite H2, H1. symmetry. apply app_assoc.
    + unfold invoked in *. rewrite omap_app, I1, I2. reflexivity.
Qed.

#[local] Instance quiet_state_preorder : PreOrder (@quiet_state Value Image PngInfo).
Proof.
  split.
  - intros s. unfold quiet_state. reflexivity.
  - intros s1 s2 s3 H1 H2. unfold quiet_state in *. etransitivity; eassumption.
Qed.

Lemma quiet_invoked x x' : quiet x x' -> invoked (log x') = invoked (log x).
Proof.
  intros (evs & Hlog & Hinv). unfold invoked in *.
  rewrite Hlog, omap_app, Hinv. apply app_nil_r.
Qed.

Lemma quiet_one x x' (e : @event Value) :
  log x' = log x ++ [e] -> invoked [e] = [] -> quiet x x'.
Proof. intros Hlog Hinv. exists [e]. split; assumption. Qed.

Lemma print_quiet (text : string) : preserves quietW (@print Value Image PngInfo text).
Proof. intros x. apply (quiet_one _ _ (EPrint text)); reflexivity. Qed.

Lemma mkdir_quiet (p : string) : preserves quietW (mkdir p).
Proof.
  intros x. apply (quiet_one _ _ (EMkdir p)); [|reflexivity].
  unfold mkdir. run_monad. destruct (writable p); reflexivity.
Qed.

Lemma open_w_quiet (p : string) : preserves quietW (open_w p).
Proof.
  intros x. apply (quiet_one _ _ (EOpen p)); [|reflexivity].
  unfold open_w. run_monad. destruct (writable p); reflexivity.
Qed.

Lemma write_row_quiet (h : nat) (r : list (@cell Value)) : preserves quietW (write_row h r).
Proof.
  intros x. apply (quiet_one _ _ (EWriteRow h r)); [|reflexivity].
  apply write_row_effect.
Qed.

Lemma writerow_quiet (sink : csv_sink) (rowdict : gmap string (@cell Value)) :
  preserves quietW (writerow sink rowdict).
Proof. unfold writerow. preserves_with ltac:(apply write_row_quiet). Qed.

Lemma close_quiet (h : nat) : preserves quietW (close h).
Proof.
  intros x. apply (quiet_one _ _ (EClose h)); [|reflexivity]. apply close_effect.
Qed.

Lemma save_quiet (p : string) (img : Image) (meta : PngInfo) :
  preserves quietW (save (Value := Value) p img meta).
Proof.
  intros x. apply (quiet_one _ _ (ESave p)); [|reflexivity]. apply save_effect.
Qed.

Lemma in_world_quiet {A : Type} (op : M (@world Value Image PngInfo) A) :
  preserves quietW op -> preserves quiet_state (in_world op).
Proof. intros Hop s. rewrite in_world_run. apply Hop. Qed.

Ltac quiet_leaf :=
  first
    [ apply in_world_quiet;
      first [ apply mkdir_quiet | apply open_w_quiet | apply writerow_quiet
            | apply close_quiet | apply save_quiet ]
    | apply preserves_modify; intros ?; unfold quiet_state; simpl; reflexivity ].

Lemma process_message_quiet cfg out_dir bag_name m :
  preserves quiet_state (process_message cfg out_dir bag_name m).
Proof.
  unfold process_message, extract_message, extract_csv, create_csv_writer, writeheader,
    extract_img, bookkeeping, get_count.
  preserves_with quiet_leaf.
Qed.

Lemma close_all_quiet : preserves quiet_state close_all.
Proof. unfold close_all. preserves_with quiet_leaf. Qed.

Lemma for_each_quiet cfg out_dir bag_name (l : list (@message Payload Stamp)) :
  preserves quiet_state (for_each l (process_message cfg out_dir bag_name)).
Proof.
  apply preserves_for_each; [typeclasses eauto|]. intros m. apply process_message_quiet.
Qed.

Lemma open_bag_run (path : string) x :
  open_bag path x =
    (log_call (EBagOpen path) x,
     match read_messages path with
     | Some bag => Ok bag
     | None => Raise (BagError path)
     end).
Proof.
  unfold open_bag. rewrite bind_run. simpl. destruct (read_messages path); reflexivity.
Qed.

Lemma main_loop_invoked (path : string) cfg out_dir s :
  invoked (log (w (fst (main_loop path cfg out_dir s)))) = invoked (log (w s)) ++ [path].
Proof.
  unfold main_loop. rewrite bind_run, in_world_run, open_bag_run. simpl.
  assert (invoked (log (w (set_w (log_call (EBagOpen path) (w s)) s)))
          = invoked (log (w s)) ++ [path]) as Hopen.
  { simpl. unfold invoked. rewrite omap_app. reflexivity. }
  destruct (read_messages path) as [bag|]; simpl; [|exact Hopen].
  rewrite <- Hopen. apply quiet_invoked.
  apply (for_each_quiet cfg out_dir (bag_name_of path) bag).
Qed.

Lemma extract_single_world (path : string) cfg out_dir x :
  fst (extract_single path cfg out_dir x)
  = w (fst (close_all (fst (main_loop path cfg out_dir (setup cfg x))))).
Proof.
  unfold extract_single, extract_single_state.
  rewrite <- try_finally_state.
  destruct (try_finally _ _ _); reflexivity.
Qed.

(** The outcome of the [finally] block replaces that of the loop when a
    close raises. *)
Lemma extract_single_result (path : string) cfg out_dir x :
  snd (extract_single path cfg out_dir x)
  = match snd (close_all (fst (main_loop path cfg out_dir (setup cfg x)))) with
    | Ok _ => snd (main_loop path cfg out_dir (setup cfg x))
    | Raise e => Raise e
    end.
Proof.
  unfold extract_single, extract_single_state.
  rewrite <- try_finally_outcome.
  destruct (try_finally _ _ _); reflexivity.
Qed.

(** One call of [extract_single] opens exactly its own bag, whatever its
    outcome. *)
Lemma extract_single_invoked (path : string) cfg out_dir x :
  invoked (log (fst (extract_single path cfg out_dir x))) = invoked (log x) ++ [path].
Proof.
  rewrite extract_single_world.
  rewrite (quiet_invoked _ _ (close_all_quiet _)).
  apply main_loop_invoked.
Qed.

Lemma process_bag_run cfg out_dir (ib : Z * string) x :
  let x1 := log_call (EPrint ("Extracting bag # " +:+ PyStr.str (fst ib) +:+ "...")) x in
  process_bag cfg out_dir ib x =
    match extract_single (snd ib) cfg out_dir x1 with
    | (x2, Ok _) => (log_call (EPrint ("...Completed!" +:+ PyStr.nl +:+ PyStr.nl)) x2, Ok tt)
    | (x2, Raise e) => (x2, Raise e)
    end.
Proof.
  unfold process_bag. rewrite bind_run. simpl. rewrite bind_run.
  destruct (extract_single _ _ _ _) as [x2 [[]|e]]; reflexivity.
Qed.

Lemma process_bag_invoked cfg out_dir (ib : Z * string) x :
  invoked (log (fst (process_bag cfg out_dir ib x))) = invoked (log x) ++ [snd ib].
Proof.
  rewrite process_bag_run. cbv zeta.
  pose proof (extract_single_invoked (snd ib) cfg out_dir
                (log_call (EPrint ("Extracting bag # " +:+ PyStr.str (fst ib) +:+ "...")) x))
    as Hinv.
  destruct (extract_single _ _ _ _) as [x2 [[]|e]]; simpl in *.
  - unfold invoked in *. rewrite omap_app, Hinv, omap_app. simpl. rewrite !app_nil_r.
    reflexivity.
  - rewrite Hinv. unfold invoked. rewrite omap_app. simpl. rewrite app_nil_r. reflexivity.
Qed.

(** The loop over the bags: on normal return every bag was invoked, in
    order; on an exception exactly the bags up to the failing one were. *)
Lemma bag_loop_invoked cfg out_dir (l : list string) (i : Z) x x' r :
  for_each (enumerate_from i l) (process_bag cfg out_dir) x = (x', r) ->
  match r with
  | Ok _ => invoked (log x') = invoked (log x) ++ l
  | Raise e =>
      exists pre b post,
        l = pre ++ b :: post /\ invoked (log x') = invoked (log x) ++ pre ++ [b]
  end.
Proof.
  revert i x. induction l as [|b l IH]; intros i x; simpl.
  - intros [= <- <-]. symmetry. apply app_nil_r.
  - rewrite bind_run. pose proof (process_bag_invoked cfg out_dir (i, b) x) as Hb.
    destruct (process_bag cfg out_dir (i, b) x) as [x1 [[]|e]]; simpl in Hb.
    + intros Hrest. apply IH in Hrest. destruct r as [[]|e].
      * rewrite Hrest, Hb, <- app_assoc. reflexivity.
      * destruct Hrest as (pre & b' & post & -> & Hinv).
        exists (b :: pre), b', post. split; [reflexivity|].
        rewrite Hinv, Hb, <- app_assoc. reflexivity.
    + intros [= <- <-]. exists [], b, l. split; [reflexivity|exact Hb].
Qed.

Lemma selected_spec (dir name : string) (size : option Z) :
  (name, size) ∈ selected dir
  <-> (exists e, e ∈ entries_below dir /\ parts e = [name] /\ st_size e = size)
      /\ PyStr.endswith ".bag" name = true
      /\ PyStr.startswith "." name = false.
Proof.
  unfold selected, glob_bag. rewrite list_elem_of_filter, list_elem_of_omap. simpl. split.
  - intros (Hdot & e & He & Hsel).
    destruct (parts e) as [|n [|? ?]] eqn:Hparts; try discriminate.
    destruct (PyStr.endswith ".bag" n) eqn:Hend; [|discriminate].
    injection Hsel as -> <-. split; [|split; assumption].
    exists e. repeat split; assumption.
  - intros ((e & He & Hparts & Hsize) & Hend & Hdot). split; [exact Hdot|].
    exists e. split; [exact He|]. rewrite Hparts, Hend, Hsize. reflexivity.
Qed.




(** C3 (amended): an exception raised while a message of a bag is processed
    ends that bag: its later messages are not processed, the [finally]
    block runs, and an exception leaves [extract_single]: that of the
    message when the closes of the [finally] block succeed, that of the
    close that failed otherwise.  The batch driver does not catch what
    leaves [extract_single], so the batch ends with that exception and no
    later bag is invoked. *)
Theorem failure_ends_bag_and_batch :
  (forall (path : string) cfg out_dir x (pre : list (@message Payload Stamp)) m
          (post : list (@message Payload Stamp)) s1 s2 e,
     read_messages path = Some (pre ++ m :: post) ->
     for_each pre (process_message cfg out_dir (bag_name_of path))
       (set_w (log_call (EBagOpen path) x) (setup cfg x)) = (s1, Ok tt) ->
     process_message cfg out_dir (bag_name_of path) m s1 = (s2, Raise e) ->
     fst (extract_single path cfg out_dir x) = w (fst (close_all s2))
     /\ (exists e', snd (extract_single path cfg out_dir x) = Raise e')
     /\ (snd (close_all s2) = Ok tt ->
         snd (extract_single path cfg out_dir x) = Raise e)
     /\ (forall e', snd (close_all s2) = Raise e' ->
                    snd (extract_single path cfg out_dir x) = Raise e'))
  /\ (forall (dir : string) cfg out_dir x (pre : list string) (b : string)
             (post : list string) x1 x2 e,
       list_o_bags dir = Ok (pre ++ b :: post) ->
       for_each (enumerate_from 0 pre) (process_bag cfg out_dir) x = (x1, Ok tt) ->
       extract_single b cfg out_dir
         (log_call (EPrint ("Extracting bag # " +:+ PyStr.str (Z.of_nat (length pre))
                            +:+ "...")) x1) = (x2, Raise e) ->
       extract_all dir cfg out_dir x = (x2, Raise e)
       /\ invoked (log x2) = invoked (log x) ++ pre ++ [b]).
Proof.
  split.
  - intros path cfg out_dir x pre m post s1 s2 e Hbag Hpre Hm.
    assert (main_loop path cfg out_dir (setup cfg x) = (s2, Raise e)) as Hloop.
    { unfold main_loop. rewrite bind_run, in_world_run, open_bag_run, Hbag. simpl.
      apply (for_each_raise _ _ _ _ _ _ _ _ Hpre Hm). }
    rewrite extract_single_world, extract_single_result, Hloop. cbn [fst snd].
    split; [reflexivity|].
    destruct (snd (close_all s2)) as [[]|e'].
    + split; [exists e; reflexivity|]. split; [reflexivity|discriminate].
    + split; [exists e'; reflexivity|]. split; [discriminate|].
      intros e2 [= <-]. reflexivity.
  - intros dir cfg out_dir x pre b post x1 x2 e Hbags Hpre Hb.
    assert (process_bag cfg out_dir (Z.of_nat (length pre), b) x1 = (x2, Raise e)) as Hbag.
    { rewrite process_bag_run. cbv zeta. simpl fst. simpl snd. rewrite Hb. reflexivity. }
    split.
    + unfold extract_all. rewrite Hbags, bind_run. simpl. rewrite enumerate_from_app. simpl.
      apply (for_each_raise _ _ _ _ _ _ _ _ Hpre Hbag).
    + apply bag_loop_invoked in Hpre.
      pose proof (process_bag_invoked cfg out_dir (Z.of_nat (length pre), b) x1) as Hinv.
      rewrite Hbag in Hinv. simpl in Hinv. rewrite Hinv, Hpre. apply eq_sym, app_assoc.
Qed.

End Batch.

(** C3 (as stated, refuted): in the directory [/data] the bags are taken in
    the order a (100 bytes), b (200 bytes), c (300 bytes); the third message
    of b raises, and the batch ends with that exception: c is selected and
    never invoked. *)
Lemma batch_halts_on_failed_bag :
  let r := extract_all (env := Example.env) "/data" Example.config "out"
             Example.empty_world in
  list_o_bags (env := Example.env) "/data"
  = Ok ["/data/a.bag"; "/data/b.bag"; "/data/c.bag"]
  /\ snd r = Raise (HandlerError "std_msgs/Unknown")
  /\ invoked (log (fst r)) = ["/data/a.bag"; "/data/b.bag"].
Proof. vm_compute. repeat split. Qed.

Lemma failure_ends_bag_and_batch_witness :
  exists x2,
    extract_all (env := Example.env) "/data" Example.config "out" Example.empty_world
    = (x2, Raise (HandlerError "std_msgs/Unknown"))
    /\ invoked (log x2)
       = invoked (log Example.empty_world) ++ ["/data/a.bag"] ++ ["/data/b.bag"].
Proof.
  eexists.
  refine (proj2 (failure_ends_bag_and_batch (env := Example.env))
            "/data" Example.config "out" Example.empty_world
            ["/data/a.bag"] "/data/b.bag" ["/data/c.bag"] _ _ _ _
            (run_result (for_each (enumerate_from 0 ["/data/a.bag"])
                           (process_bag (env := Example.env) Example.config "out"))
                        Example.empty_world (Ok tt) _)
            (run_result (extract_single (env := Example.env) "/data/b.bag"
                           Example.config "out") _ _ _)).
  - vm_compute; reflexivity.
  - vm_compute; reflexivity.
  - vm_compute; reflexivity.
Defined.

(** ** Release of the tabular sinks *)

(** C1 (the code departs from it): in the bag [leak.bag] the only message is
    accepted on the tabular topic and its type has no columns.  The file has
    been opened when [get_msg_cols] raises, and is not yet in [csv_writers]:
    the [finally] block closes nothing, and the handle is still open when
    [extract_single] ends. *)
Lemma unregistered_handle_survives :
  let r := extract_single (env := Example.env) "/data/leak.bag" Example.config "out"
             Example.empty_world in
  snd r = Raise (HandlerError "std_msgs/Unknown")
  /\ handles (fst r) = [{| h_path := "out/leak/twist.csv"; h_closes := 0 |}]
  /\ log (fst r) = [EBagOpen "/data/leak.bag"; EMkdir "out/leak";
                    EOpen "out/leak/twist.csv"].
Proof. vm_compute. repeat split. Qed.

Section Release.

Context {Payload Stamp Value Image PngInfo Extra : Type}.
Context {env : @Collaborators Payload Stamp Value Image PngInfo Extra}.

Implicit Types (s : @state Value Image PngInfo) (m : @message Payload Stamp).
Implicit Types (x : @world Value Image PngInfo).
Implicit Types (cfg : list (@schema_entry Extra)) (tc : @schema_entry Extra).

#[local] Instance same_handles_preorder : PreOrder (@same_handles Value Image PngInfo).
Proof.
  split.
  - intros s. split; reflexivity.
  - intros s1 s2 s3 [H1 H2] [H3 H4]. split; congruence.
Qed.

Lemma bag_inv_stable x0 (leak : nat) s s' :
  bag_inv x0 leak s -> same_handles s s' -> bag_inv x0 leak s'.
Proof.
  intros (new & Hh & Hnew & Hreg & Hlen) [Hc Hw]. exists new.
  unfold registered in *. rewrite Hc, Hw. repeat split; assumption.
Qed.

Lemma in_world_same_handles {A : Type} (op : M (@world Value Image PngInfo) A) :
  (forall x, handles (fst (op x)) = handles x) ->
  preserves same_handles (in_world op).
Proof. intros Hop s. rewrite in_world_run. split; [reflexivity|apply Hop]. Qed.

Lemma mkdir_handles (p : string) x : handles (fst (mkdir p x)) = handles x.
Proof. unfold mkdir. run_monad. destruct (writable p); reflexivity. Qed.

Lemma writerow_handles (sink : csv_sink) (rowdict : gmap string (@cell Value)) x :
  handles (fst (writerow sink rowdict x)) = handles x.
Proof.
  unfold writerow. rewrite bind_run. unfold lift_result.
  destruct (dict_to_list (writer sink) rowdict); [|reflexivity].
  apply write_row_effect.
Qed.

Lemma save_handles (p : string) (img : Image) (meta : PngInfo) x :
  handles (fst (save (Value := Value) p img meta x)) = handles x.
Proof. apply save_effect. Qed.

Lemma open_bag_handles (p : string) x : handles (fst (open_bag p x)) = handles x.
Proof. rewrite open_bag_run. reflexivity. Qed.

Ltac handles_leaf :=
  first
    [ apply in_world_same_handles; intros ?;
      first [ apply mkdir_handles | apply writerow_handles | apply save_handles
            | apply open_bag_handles ]
    | apply preserves_modify; intros ?; split; reflexivity ].

Lemma extract_img_same_handles out_dir bag_name tc m :
  preserves same_handles (extract_img out_dir bag_name tc m).
Proof. unfold extract_img, get_count. preserves_with handles_leaf. Qed.

Lemma bookkeeping_same_handles (topic : string) :
  preserves same_handles (@bookkeeping Value Image PngInfo topic).
Proof. intros s. rewrite bookkeeping_run. split; reflexivity. Qed.

Lemma bag_inv_open x0 s (p : string) (cw : list (string * csv_sink)) (x' : @world Value Image PngInfo) :
  bag_inv x0 0 s ->
  handles x' = handles (w s) ++ [{| h_path := p; h_closes := 0 |}] ->
  (cw = csv_writers s -> bag_inv x0 1 (set_csv_writers cw (set_w x' s)))
  /\ (forall topic sink,
        dict_get topic (csv_writers s) = None ->
        file sink = length (handles (w s)) ->
        cw = dict_set topic sink (csv_writers s) ->
        bag_inv x0 0 (set_csv_writers cw (set_w x' s))).
Proof.
  intros (new & Hh & Hnew & Hreg & Hlen) Hx'. split.
  - intros ->. exists (new ++ [{| h_path := p; h_closes := 0 |}]). simpl.
    split; [rewrite Hx', Hh; symmetry; apply app_assoc|].
    split; [apply Forall_app; split; [exact Hnew|repeat constructor]|].
    split; [exact Hreg|]. rewrite length_app. simpl. lia.
  - intros topic sink Hnone Hfile ->.
    exists (new ++ [{| h_path := p; h_closes := 0 |}]). simpl.
    split; [rewrite Hx', Hh; symmetry; apply app_assoc|].
    split; [apply Forall_app; split; [exact Hnew|repeat constructor]|].
    rewrite (dict_set_absent _ _ _ Hnone). unfold registered in *. simpl.
    rewrite map_app, !length_app, Hreg. simpl.
    split; [|lia]. rewrite Nat.add_1_r, seq_S. do 2 f_equal.
    rewrite Hfile, Hh, length_app. lia.
Qed.

Lemma create_csv_writer_inv x0 out_dir bag_name tc (topic msg_type : string) s :
  bag_inv x0 0 s ->
  dict_get topic (csv_writers s) = None ->
  match create_csv_writer out_dir bag_name tc topic msg_type s with
  | (s', Ok _) => bag_inv x0 0 s'
  | (s', Raise _) => bag_inv x0 0 s' \/ bag_inv x0 1 s'
  end.
Proof.
  intros Hinv Hnone.
  destruct (writable (out_dir +:+ "/" +:+ bag_name)) eqn:Hw1.
  2: { unfold create_csv_writer, in_world, mkdir. run_monad. rewrite Hw1. run_monad.
       left. apply (bag_inv_stable _ _ _ _ Hinv). split; reflexivity. }
  destruct (writable (csv_file_path out_dir bag_name tc)) eqn:Hw2.
  2: { unfold create_csv_writer, in_world, mkdir, open_w.
       run_monad. rewrite Hw1. run_monad. rewrite Hw2. run_monad.
       left. apply (bag_inv_stable _ _ _ _ Hinv). split; reflexivity. }
  destruct (get_msg_cols msg_type) as [cols|] eqn:Hcols.
  - rewrite (create_csv_writer_run _ _ _ _ _ _ cols Hw1 Hw2 Hcols).
    match goal with
    | |- bag_inv _ _ (set_csv_writers ?cw (set_w ?x' _)) =>
        destruct (bag_inv_open x0 s (resolve (csv_file_path out_dir bag_name tc)) cw x' Hinv
                    eq_refl)
          as [_ Hreg]
    end.
    eapply Hreg; [exact Hnone| |reflexivity]. reflexivity.
  - unfold create_csv_writer, in_world, mkdir, open_w.
    run_monad. rewrite Hw1. run_monad. rewrite Hw2. run_monad. rewrite Hcols. run_monad.
    right.
    match goal with
    | |- bag_inv _ _ (set_w ?x' _) =>
        pose proof (proj1 (bag_inv_open x0 s (resolve (csv_file_path out_dir bag_name tc))
                             (csv_writers s) x' Hinv eq_refl) eq_refl) as Hleak
    end.
    apply (bag_inv_stable _ _ _ _ Hleak). split; reflexivity.
Qed.

Lemma keeps_same_handles {A : Type} x0 (op : M (@state Value Image PngInfo) A) :
  preserves same_handles op -> keeps (bag_inv x0 0) (bag_inv_raised x0) op.
Proof.
  apply keeps_of_preserves.
  - intros s Hs. left. exact Hs.
  - intros s s' Hs HR. apply (bag_inv_stable _ _ _ _ Hs HR).
Qed.

Lemma extract_csv_keeps x0 out_dir bag_name tc m :
  keeps (bag_inv x0 0) (bag_inv_raised x0) (extract_csv out_dir bag_name tc m).
Proof.
  intros s Hinv. unfold extract_csv. rewrite bind_run.
  change (gets csv_writers s) with (s, Ok (csv_writers s)). cbv beta iota.
  rewrite bind_run.
  assert (forall s1, bag_inv x0 0 s1 ->
            match (processed_data ← lift_option (HandlerError (m_type m))
                     (process_msg_csv (m_type m) (m_msg m) (m_stamp m) (extra_options tc));
                   writers ← gets csv_writers;
                   sink ← lift_option (KeyError (m_topic m)) (dict_get (m_topic m) writers);
                   in_world (writerow sink (CVal <$> processed_data))) s1 with
            | (s', Ok _) => bag_inv x0 0 s'
            | (s', Raise _) => bag_inv_raised x0 s'
            end) as Htail.
  { intros s1. refine ((_ : keeps (bag_inv x0 0) (bag_inv_raised x0) _) s1).
    apply keeps_same_handles. preserves_with handles_leaf. }
  destruct (dict_get (m_topic m) (csv_writers s)) eqn:Hget.
  - simpl. apply Htail, Hinv.
  - pose proof (create_csv_writer_inv x0 out_dir bag_name tc (m_topic m) (m_type m) s
                  Hinv Hget) as Hc.
    destruct (create_csv_writer _ _ _ _ _ s) as [s1 [[]|e]]; [apply Htail, Hc|exact Hc].
Qed.

Lemma process_message_keeps x0 cfg out_dir bag_name m :
  keeps (bag_inv x0 0) (bag_inv_raised x0) (process_message cfg out_dir bag_name m).
Proof.
  assert (forall s, bag_inv x0 0 s -> bag_inv_raised x0 s) as HIE by (intros s Hs; left; exact Hs).
  unfold process_message, extract_message, get_count.
  keeps_with ltac:(first
    [ apply extract_csv_keeps
    | apply keeps_same_handles;
      first [ apply extract_img_same_handles | apply bookkeeping_same_handles
            | apply preserves_modify; intros ?; split; reflexivity ]
    | exact HIE ]).
Qed.


Lemma setup_inv cfg x : bag_inv x 0 (setup cfg x).
Proof.
  exists []. simpl. split; [symmetry; apply app_nil_r|].
  split; [constructor|]. split; reflexivity.
Qed.





End Release.

(** * Further properties of the pipeline *)

(** ** Messages that produce no output *)

Section Skipped.

Context {Payload Stamp Value Image PngInfo Extra : Type}.
Context {env : @Collaborators Payload Stamp Value Image PngInfo Extra}.

Implicit Types (s : @state Value Image PngInfo) (m : @message Payload Stamp).
Implicit Types (cfg : list (@schema_entry Extra)) (tc : @schema_entry Extra).

Lemma extract_message_configured cfg out_dir bag_name m s tc (idx : Z) :
  m_topic m ∈ map rosbag_topic cfg ->
  head (filter (fun topic_info => rosbag_topic topic_info = m_topic m) cfg) = Some tc ->
  topic_msg_counts s !! m_topic m = Some idx ->
  extract_message cfg out_dir bag_name m s =
    match should_keep idx (start_idx tc) (end_idx tc) (throttle_rate tc) with
    | Ok true =>
        if String.eqb (output_type tc) "csv" then extract_csv out_dir bag_name tc m s
        else if String.eqb (output_type tc) "dir_of_imgs"
             then extract_img out_dir bag_name tc m s
             else (s, Ok tt)
    | Ok false => (s, Ok tt)
    | Raise e => (s, Raise e)
    end.
Proof.
  intros Hin Hhead Hidx. unfold extract_message.
  rewrite bool_decide_eq_true_2 by assumption.
  unfold get_count. rewrite !bind_run. unfold gets. rewrite Hidx. simpl.
  rewrite bind_run, Hhead. simpl. rewrite bind_run. unfold lift_result.
  destruct (should_keep _ _ _ _) as [[|]|e]; try reflexivity.
  destruct (String.eqb (output_type tc) "csv"); [reflexivity|].
  destruct (String.eqb (output_type tc) "dir_of_imgs"); reflexivity.
Qed.

(** X3: a schema entry with [throttle_rate] 0 is not rejected when the
    configuration is read.  A message of its topic whose cursor lies in
    [[start_idx, end_idx)] raises [ZeroDivisionError], which ends the bag
    with nothing done for the message; outside the bounds the remainder is
    never computed and the message is skipped. *)
Theorem zero_stride_raises cfg out_dir bag_name m s tc (idx : Z) :
  m_topic m ∈ map rosbag_topic cfg ->
  head (filter (fun topic_info => rosbag_topic topic_info = m_topic m) cfg) = Some tc ->
  topic_msg_counts s !! m_topic m = Some idx ->
  throttle_rate tc = 0 ->
  (start_idx tc <= idx < end_idx tc ->
   forall rest,
     for_each (m :: rest) (process_message cfg out_dir bag_name) s
     = (s, Raise ZeroDivisionError))
  /\ (~ (start_idx tc <= idx < end_idx tc) ->
      extract_message cfg out_dir bag_name m s = (s, Ok tt)).
Proof.
  intros Hin Hhead Hidx Hzero.
  pose proof (extract_message_configured cfg out_dir bag_name m s tc idx Hin Hhead Hidx)
    as Hext.
  unfold should_keep in Hext. rewrite Hzero in Hext. simpl in Hext. split.
  - intros [Hs He] rest. simpl. apply bind_raise, process_message_raise.
    rewrite Hext.
    destruct (Z.leb_spec (start_idx tc) idx); [|lia]. simpl.
    destruct (Z.ltb_spec idx (end_idx tc)); [|lia]. reflexivity.
  - intros Hout. rewrite Hext.
    destruct (Z.leb_spec (start_idx tc) idx); [|reflexivity]. simpl.
    destruct (Z.ltb_spec idx (end_idx tc)); [lia|reflexivity].
Qed.

(** X4: a message of a configured topic that the sampling test drops leaves
    the sinks and the world as they are: no file, directory, handle or call;
    its cursor and the progress bar still move on by one. *)
Theorem sampled_out_frame cfg out_dir bag_name m s tc (idx : Z) :
  m_topic m ∈ map rosbag_topic cfg ->
  head (filter (fun topic_info => rosbag_topic topic_info = m_topic m) cfg) = Some tc ->
  topic_msg_counts s !! m_topic m = Some idx ->
  should_keep idx (start_idx tc) (end_idx tc) (throttle_rate tc) = Ok false ->
  exists s',
    process_message cfg out_dir bag_name m s = (s', Ok tt)
    /\ w s' = w s
    /\ csv_writers s' = csv_writers s
    /\ img_writers s' = img_writers s
    /\ topic_msg_counts s' = <[m_topic m := idx + 1]> (topic_msg_counts s)
    /\ progress s' = progress s + 1.
Proof.
  intros Hin Hhead Hidx Hkeep.
  pose proof (extract_message_configured cfg out_dir bag_name m s tc idx Hin Hhead Hidx)
    as Hext.
  rewrite Hkeep in Hext. eexists. split; [apply process_message_run, Hext|].
  simpl. rewrite Hidx. repeat split.
Qed.

(** X5: an accepted message whose schema entry has an [output_type] other
    than [csv] and [dir_of_imgs] is neither extracted nor reported: the step
    succeeds, and only the cursor and the progress bar move. *)
Theorem unknown_output_type_ignored cfg out_dir bag_name m s tc :
  accepted cfg s m tc ->
  output_type tc <> "csv" ->
  output_type tc <> "dir_of_imgs" ->
  exists s',
    process_message cfg out_dir bag_name m s = (s', Ok tt)
    /\ w s' = w s
    /\ csv_writers s' = csv_writers s
    /\ img_writers s' = img_writers s
    /\ progress s' = progress s + 1.
Proof.
  intros Hacc Hcsv Himg.
  pose proof (extract_message_accepted cfg out_dir bag_name m s tc Hacc) as Hext.
  apply String.eqb_neq in Hcsv, Himg. rewrite Hcsv, Himg in Hext.
  eexists. split; [apply process_message_run, Hext|]. simpl. repeat split.
Qed.

Lemma head_app_cons {A : Type} (l r : list A) (a : A) : head (l ++ a :: r) = head (l ++ [a]).
Proof. destruct l; reflexivity. Qed.

(** X7: when several schema entries name the same topic, the first one
    decides: wherever an entry of the topic of a message stands in the
    schema, the entries after it play no part in the processing of the
    message. *)
Theorem duplicate_entry_ignored (pre : list (@schema_entry Extra)) (e : @schema_entry Extra)
    (rest : list (@schema_entry Extra)) out_dir bag_name m s :
  rosbag_topic e = m_topic m ->
  process_message (pre ++ e :: rest) out_dir bag_name m s
  = process_message (pre ++ [e]) out_dir bag_name m s.
Proof.
  intros Htopic. unfold process_message. f_equal.
  unfold extract_message.
  rewrite !bool_decide_eq_true_2
    by (rewrite map_app, elem_of_app; right; simpl; rewrite Htopic; apply list_elem_of_here).
  rewrite !filter_app, !filter_cons, !decide_True by exact Htopic.
  rewrite filter_nil, head_app_cons. reflexivity.
Qed.

End Skipped.

(** ** Whole bags *)

Section Bags.

Context {Payload Stamp Value Image PngInfo Extra : Type}.
Context {env : @Collaborators Payload Stamp Value Image PngInfo Extra}.

Implicit Types (s : @state Value Image PngInfo) (m : @message Payload Stamp).
Implicit Types (x : @world Value Image PngInfo).
Implicit Types (cfg : list (@schema_entry Extra)) (tc : @schema_entry Extra).

#[local] Instance same_progress_preorder : PreOrder (@same_progress Value Image PngInfo).
Proof.
  split.
  - intros s. reflexivity.
  - intros s1 s2 s3 H1 H2. unfold same_progress in *. congruence.
Qed.

Lemma extract_message_same_progress cfg out_dir bag_name m :
  preserves same_progress (extract_message cfg out_dir bag_name m).
Proof.
  unfold extract_message, extract_csv, create_csv_writer, extract_img, get_count.
  preserves_with ltac:(first
    [ match goal with
      | |- preserves _ (in_world _) => intros ?; rewrite in_world_run; reflexivity
      end
    | apply preserves_modify; intros ?; reflexivity ]).
Qed.

(** X8: the progress bar moves by one for every message, of a configured
    topic or not, extracted or not: after a run of messages without an
    exception it has advanced by their number. *)
Theorem progress_counts_messages cfg out_dir bag_name
    (msgs : list (@message Payload Stamp)) s s' :
  for_each msgs (process_message cfg out_dir bag_name) s = (s', Ok tt) ->
  progress s' = progress s + Z.of_nat (length msgs).
Proof.
  revert s. induction msgs as [|m msgs IH]; intros s Hrun; simpl in Hrun.
  - injection Hrun as <-. simpl. lia.
  - rewrite bind_run in Hrun.
    destruct (process_message cfg out_dir bag_name m s) as [s1 [[]|e]] eqn:Hstep;
      [|discriminate].
    rewrite (IH s1 Hrun).
    destruct (process_message_cases _ _ _ _ _ _ _ Hstep) as [(s0 & Hext & _ & _)|(e & He)].
    + pose proof (extract_message_same_progress cfg out_dir bag_name m s) as Hp.
      rewrite Hext in Hp. unfold same_progress in Hp. simpl in Hp.
      rewrite (process_message_run _ _ _ _ _ _ Hext) in Hstep.
      injection Hstep as <-. simpl. rewrite Hp. simpl length. lia.
    + apply process_message_raise in He. congruence.
Qed.

Lemma for_each_unconfigured cfg out_dir bag_name (msgs : list (@message Payload Stamp)) s :
  Forall (fun m => m_topic m ∉ map rosbag_topic cfg) msgs ->
  exists s',
    for_each msgs (process_message cfg out_dir bag_name) s = (s', Ok tt)
    /\ w s' = w s /\ csv_writers s' = csv_writers s.
Proof.
  intros Hall. revert s. induction Hall as [|m msgs Hm _ IH]; intros s; simpl.
  - exists s. repeat split.
  - rewrite bind_run.
    rewrite (process_message_run _ _ _ _ _ _
               (extract_message_other cfg out_dir bag_name m s Hm)).
    destruct (IH (set_progress (progress s + 1)
                    (set_topic_msg_counts
                       (<[m_topic m := match topic_msg_counts s !! m_topic m with
                                       | Some n => n + 1
                                       | None => 1
                                       end]> (topic_msg_counts s)) s)))
      as (s' & Hrun & Hw & Hc).
    exists s'. split; [exact Hrun|]. split; [exact Hw|exact Hc].
Qed.

Lemma close_all_nothing s : csv_writers s = [] -> close_all s = (s, Ok tt).
Proof. intros Hnil. unfold close_all. rewrite bind_run. simpl. rewrite Hnil. reflexivity. Qed.

(** X12: a bag in which no message is of a configured topic is read to its
    end without an exception and without any output: the only call is the
    opening of the bag. *)
Theorem unconfigured_bag_no_output (path : string) cfg out_dir x
    (msgs : list (@message Payload Stamp)) :
  read_messages path = Some msgs ->
  Forall (fun m => m_topic m ∉ map rosbag_topic cfg) msgs ->
  extract_single path cfg out_dir x = (log_call (EBagOpen path) x, Ok tt).
Proof.
  intros Hbag Hall.
  destruct (for_each_unconfigured cfg out_dir (bag_name_of path) msgs
              (set_w (log_call (EBagOpen path) x) (setup cfg x)) Hall)
    as (s' & Hrun & Hw & Hc).
  assert (main_loop path cfg out_dir (setup cfg x) = (s', Ok tt)) as Hloop.
  { unfold main_loop. rewrite bind_run, in_world_run, open_bag_run, Hbag. exact Hrun. }
  rewrite (run_pair (extract_single path cfg out_dir) x).
  rewrite extract_single_world, extract_single_result, Hloop. simpl.
  rewrite (close_all_nothing s' Hc). simpl. rewrite Hw. reflexivity.
Qed.

(** X13: when the bag cannot be opened, [extract_single] raises the error of
    the opening with nothing else done: no directory, file or handle is
    made, and there is nothing to close. *)
Theorem missing_bag_raises (path : string) cfg out_dir x :
  read_messages path = None ->
  extract_single path cfg out_dir x = (log_call (EBagOpen path) x, Raise (BagError path)).
Proof.
  intros Hbag.
  assert (main_loop path cfg out_dir (setup cfg x)
          = (set_w (log_call (EBagOpen path) x) (setup cfg x), Raise (BagError path)))
    as Hloop.
  { unfold main_loop. rewrite bind_run, in_world_run, open_bag_run, Hbag. reflexivity. }
  rewrite (run_pair (extract_single path cfg out_dir) x).
  rewrite extract_single_world, extract_single_result, Hloop. cbn [fst snd].
  rewrite close_all_nothing by reflexivity. reflexivity.
Qed.

End Bags.

Section OpenHandles.

Context {Payload Stamp Value Image PngInfo Extra : Type}.
Context {env : @Collaborators Payload Stamp Value Image PngInfo Extra}.

Implicit Types (s : @state Value Image PngInfo) (m : @message Payload Stamp).
Implicit Types (x : @world Value Image PngInfo).
Implicit Types (cfg : list (@schema_entry Extra)) (tc : @schema_entry Extra).

Lemma dict_get_registered (topic : string) (sink : csv_sink) (l : list (string * csv_sink)) :
  dict_get topic l = Some sink -> file sink ∈ map (fun kv => file (snd kv)) l.
Proof.
  induction l as [|[k v] l IH]; simpl; [discriminate|].
  destruct (decide (k = topic)).
  - intros [= ->]. apply list_elem_of_here.
  - intros H. apply list_elem_of_further, IH, H.
Qed.

(** X14: while a bag is processed no sink is ever closed, and no two sinks
    share a handle: after any run of messages without an exception, the
    handle of every sink in [csv_writers] was opened during this bag and is
    open, so a row is never written to a closed file. *)
Theorem registered_handles_open (path bag_name : string) cfg out_dir x
    (pre : list (@message Payload Stamp)) s :
  for_each pre (process_message cfg out_dir bag_name)
    (set_w (log_call (EBagOpen path) x) (setup cfg x)) = (s, Ok tt) ->
  NoDup (registered s)
  /\ forall topic sink,
       dict_get topic (csv_writers s) = Some sink ->
       (length (handles x) <= file sink)%nat
       /\ exists fh, handles (w s) !! file sink = Some fh /\ h_closes fh = 0%nat.
Proof.
  intros Hrun.
  assert (bag_inv x 0 s) as (new & Hh & Hnew & Hreg & Hlen).
  { assert (forall s0 : @state Value Image PngInfo, bag_inv x 0 s0 -> bag_inv_raised x s0)
      as HIE by (intros s0 Hs0; left; exact Hs0).
    pose proof (keeps_for_each _ _ pre (process_message cfg out_dir bag_name)
                  (fun a => process_message_keeps x cfg out_dir bag_name a)
                  (set_w (log_call (EBagOpen path) x) (setup cfg x))) as Hk.
    rewrite Hrun in Hk. apply Hk.
    apply (bag_inv_stable _ _ _ _ (setup_inv cfg x)). split; reflexivity. }
  split; [rewrite Hreg; apply NoDup_seq|].
  intros topic sink Hget. apply dict_get_registered in Hget.
  fold (registered s) in Hget. rewrite Hreg in Hget. apply elem_of_seq in Hget.
  split; [lia|]. rewrite Hh, lookup_app_r by lia.
  destruct (lookup_lt_is_Some_2 new (file sink - length (handles x))) as [fh Hfh]; [lia|].
  exists fh. split; [exact Hfh|]. rewrite Forall_lookup in Hnew. apply (Hnew _ _ Hfh).
Qed.

End OpenHandles.

(** ** Paths *)

Section Strings.

Lemma append_cons (ch : ascii) (a b : string) : String ch a +:+ b = String ch (a +:+ b).
Proof. reflexivity. Qed.

Lemma append_assoc (a b c : string) : (a +:+ b) +:+ c = a +:+ (b +:+ c).
Proof.
  induction a as [|ch a IH]; [reflexivity|]. rewrite !append_cons. f_equal. exact IH.
Qed.

Lemma length_append (a b : string) :
  String.length (a +:+ b) = (String.length a + String.length b)%nat.
Proof.
  induction a as [|ch a IH]; [reflexivity|]. rewrite append_cons. simpl. f_equal. exact IH.
Qed.

Lemma prefix_append (a b : string) : String.prefix a (a +:+ b) = true.
Proof.
  induction a as [|ch a IH]; [destruct b; reflexivity|]. rewrite append_cons. simpl.
  destruct (ascii_dec ch ch); [exact IH|contradiction].
Qed.

Lemma prefix_same (a : string) : String.prefix a a = true.
Proof.
  induction a as [|ch a IH]; simpl; [reflexivity|].
  destruct (ascii_dec ch ch); [exact IH|contradiction].
Qed.

Lemma prefix_below (a b c d : string) :
  String.prefix (a +:+ b +:+ c) (a +:+ b +:+ c +:+ d) = true.
Proof.
  replace (a +:+ b +:+ c +:+ d) with ((a +:+ b +:+ c) +:+ d)
    by (rewrite !append_assoc; reflexivity).
  apply prefix_append.
Qed.

Lemma substring_whole (a b : string) : String.substring 0 (String.length a) (a +:+ b) = a.
Proof.
  induction a as [|ch a IH]; [destruct b; reflexivity|].
  rewrite append_cons. simpl. f_equal. exact IH.
Qed.

Lemma has_slash_append (a b : string) :
  PyStr.has_slash (a +:+ b) = PyStr.has_slash a || PyStr.has_slash b.
Proof.
  induction a as [|ch a IH]; [reflexivity|]. rewrite append_cons. simpl.
  destruct (Ascii.eqb ch "/"); [reflexivity|exact IH].
Qed.

Lemma last_segment_after_slash (dir name : string) :
  PyStr.has_slash name = false ->
  PyStr.last_segment (dir +:+ "/" +:+ name) = name.
Proof.
  intros Hname. induction dir as [|ch dir IH].
  - change ("" +:+ "/" +:+ name) with (String "/" name). simpl. rewrite Hname. reflexivity.
  - rewrite append_cons. simpl. rewrite has_slash_append.
    change (PyStr.has_slash ("/" +:+ name)) with true. rewrite orb_true_r. exact IH.
Qed.

End Strings.

Section BagName.

Lemma substring_all (s : string) : String.substring 0 (String.length s) s = s.
Proof. induction s as [|ch s IH]; simpl; [reflexivity|]. f_equal. exact IH. Qed.

Lemma substring_split (n : nat) (s : string) :
  s = String.substring 0 n s +:+ String.substring n (String.length s - n) s.
Proof.
  revert s. induction n as [|n IH]; intros s.
  - rewrite Nat.sub_0_r, substring_all. destruct s; reflexivity.
  - destruct s as [|ch s]; [reflexivity|].
    simpl String.substring. simpl String.length. rewrite append_cons. f_equal. apply IH.
Qed.

Lemma endswith_split (p s : string) :
  PyStr.endswith p s = true ->
  s = String.substring 0 (String.length s - String.length p) s +:+ p.
Proof.
  unfold PyStr.endswith. intros H. apply andb_true_iff in H as [Heq Hlen].
  apply String.eqb_eq in Heq. apply Nat.leb_le in Hlen.
  rewrite (substring_split (String.length s - String.length p) s) at 1.
  replace (String.length s - (String.length s - String.length p))%nat
    with (String.length p) by lia.
  rewrite Heq. reflexivity.
Qed.

Lemma bag_name_of_stem (dir stem ext : string) :
  String.length ext = 4%nat ->
  PyStr.has_slash (stem +:+ ext) = false ->
  bag_name_of (dir +:+ "/" +:+ stem +:+ ext) = stem.
Proof.
  intros Hext Hslash. unfold bag_name_of.
  rewrite (last_segment_after_slash dir (stem +:+ ext) Hslash).
  unfold PyStr.drop_last4. rewrite length_append, Hext.
  replace (String.length stem + 4 - 4)%nat with (String.length stem) by lia.
  apply substring_whole.
Qed.

(** X6: the directory of a bag's outputs is named by the file name of the
    bag without its extension: for a path [dir/name] whose file name ends in
    [.bag], putting [.bag] back on the bag name gives the file name,
    whatever slashes [dir] holds. *)
Theorem bag_name_is_file_stem (dir name : string) :
  PyStr.has_slash name = false ->
  PyStr.endswith ".bag" name = true ->
  bag_name_of (dir +:+ "/" +:+ name) +:+ ".bag" = name.
Proof.
  intros Hslash Hend. pose proof (endswith_split ".bag" name Hend) as Hsplit.
  set (stem := String.substring 0 (String.length name - String.length ".bag") name) in *.
  rewrite Hsplit at 1. rewrite bag_name_of_stem; [symmetry; exact Hsplit|reflexivity|].
  rewrite <- Hsplit. exact Hslash.
Qed.

End BagName.

Lemma bag_name_is_file_stem_witness :
  bag_name_of ("/data/logs" +:+ "/" +:+ "run1.bag") +:+ ".bag" = "run1.bag".
Proof. apply bag_name_is_file_stem; reflexivity. Defined.

(** ** Where the pipeline writes *)

Section Confined.

Context {Payload Stamp Value Image PngInfo Extra : Type}.
Context {env : @Collaborators Payload Stamp Value Image PngInfo Extra}.

Implicit Types (s : @state Value Image PngInfo) (m : @message Payload Stamp).
Implicit Types (x : @world Value Image PngInfo).
Implicit Types (cfg : list (@schema_entry Extra)) (tc : @schema_entry Extra).

#[local] Abbreviation confinedW := (@confined Value Image PngInfo).

#[local] Instance confined_preorder (root : string) : PreOrder (confinedW root).
Proof.
  split.
  - intros x. exists []. split; [symmetry; apply app_nil_r|constructor].
  - intros x1 x2 x3 (e1 & H1 & U1) (e2 & H2 & U2). exists (e1 ++ e2). split.
    + rewrite H2, H1. symmetry. apply app_assoc.
    + apply Forall_app. split; assumption.
Qed.

#[local] Instance confined_state_preorder (root : string) :
  PreOrder (@confined_state Value Image PngInfo root).
Proof.
  split.
  - intros s. unfold confined_state. reflexivity.
  - intros s1 s2 s3 H1 H2. unfold confined_state in *. etransitivity; eassumption.
Qed.

Lemma confined_one (root : string) x x' (e : @event Value) :
  log x' = log x ++ [e] ->
  match touches e with Some p => String.prefix root p = true | None => True end ->
  confinedW root x x'.
Proof. intros Hlog He. exists [e]. split; [exact Hlog|]. repeat constructor. exact He. Qed.

Lemma mkdir_confined (root p : string) :
  String.prefix root p = true -> preserves (confinedW root) (mkdir p).
Proof.
  intros Hp x. apply (confined_one _ _ _ (EMkdir p)); [|exact Hp].
  unfold mkdir. run_monad. destruct (writable p); reflexivity.
Qed.

Lemma open_w_confined (root p : string) :
  String.prefix root p = true -> preserves (confinedW root) (open_w p).
Proof.
  intros Hp x. apply (confined_one _ _ _ (EOpen p)); [|exact Hp].
  unfold open_w. run_monad. destruct (writable p); reflexivity.
Qed.

Lemma save_confined (root p : string) (img : Image) (meta : PngInfo) :
  String.prefix root p = true -> preserves (confinedW root) (save p img meta).
Proof.
  intros Hp x. apply (confined_one _ _ _ (ESave p)); [apply save_effect|exact Hp].
Qed.

Lemma write_row_confined (root : string) (h : nat) (r : list (@cell Value)) :
  preserves (confinedW root) (write_row h r).
Proof.
  intros x. apply (confined_one _ _ _ (EWriteRow h r)); [apply write_row_effect|exact I].
Qed.

Lemma writerow_confined (root : string) (sink : csv_sink)
    (rowdict : gmap string (@cell Value)) :
  preserves (confinedW root) (writerow sink rowdict).
Proof. unfold writerow. preserves_with ltac:(apply write_row_confined). Qed.

Lemma close_confined (root : string) (h : nat) : preserves (confinedW root) (close h).
Proof.
  intros x. apply (confined_one _ _ _ (EClose h)); [apply close_effect|exact I].
Qed.

Lemma in_world_confined {A : Type} (root : string) (op : M (@world Value Image PngInfo) A) :
  preserves (confinedW root) op -> preserves (confined_state root) (in_world op).
Proof. intros Hop s. rewrite in_world_run. apply Hop. Qed.

Ltac under_root :=
  first [ apply prefix_same
        | unfold csv_file_path, img_full_dir, img_file_path; apply prefix_below ].

Ltac confined_leaf :=
  first
    [ apply in_world_confined;
      first [ apply mkdir_confined; under_root | apply open_w_confined; under_root
            | apply save_confined; under_root | apply writerow_confined
            | apply close_confined ]
    | apply preserves_modify; intros ?; unfold confined_state; simpl; reflexivity ].

Lemma process_message_confined cfg out_dir bag_name m :
  preserves (confined_state (out_dir +:+ "/" +:+ bag_name))
    (process_message cfg out_dir bag_name m).
Proof.
  unfold process_message, extract_message, extract_csv, create_csv_writer, writeheader,
    extract_img, bookkeeping, get_count.
  preserves_with confined_leaf.
Qed.

Lemma close_all_confined (root : string) : preserves (confined_state root) close_all.
Proof. unfold close_all. preserves_with confined_leaf. Qed.

(** X9: whatever the outcome, [extract_single] makes directories, opens
    files and saves images only at paths that start with
    [<out_dir>/<bag_name>]. *)
Theorem writes_stay_under_bag_dir (path : string) cfg out_dir x :
  exists evs,
    log (fst (extract_single path cfg out_dir x)) = log x ++ evs
    /\ under (out_dir +:+ "/" +:+ bag_name_of path) evs.
Proof.
  rewrite extract_single_world.
  set (root := out_dir +:+ "/" +:+ bag_name_of path).
  change (confined_state root (setup cfg x)
            (fst (close_all (fst (main_loop path cfg out_dir (setup cfg x)))))).
  etransitivity; [|apply close_all_confined].
  unfold main_loop. rewrite bind_run, in_world_run, open_bag_run. simpl.
  assert (confined_state root (setup cfg x)
            (set_w (log_call (EBagOpen path) x) (setup cfg x))) as Hopen.
  { apply (confined_one _ _ _ (EBagOpen path)); [reflexivity|exact I]. }
  destruct (read_messages path) as [bag|]; simpl; [|exact Hopen].
  etransitivity; [exact Hopen|].
  apply (preserves_for_each (confined_state root)).
  intros m. apply process_message_confined.
Qed.

End Confined.

(** ** The script *)

Section ScriptProperties.

Context {Payload Stamp Value Image PngInfo Extra : Type}.
Context {env : @Collaborators Payload Stamp Value Image PngInfo Extra}.

Implicit Types (x : @world Value Image PngInfo).
Implicit Types (cfg : list (@schema_entry Extra)).

Lemma infer_end_idx_entry_end (e : @schema_entry Extra) :
  end_idx (infer_end_idx_entry e) <> -1.
Proof.
  unfold infer_end_idx_entry. destruct (Z.eqb_spec (end_idx e) (-1)); simpl.
  - unfold unbounded_end. lia.
  - assumption.
Qed.

Lemma infer_end_idx_entry_fixed (e : @schema_entry Extra) :
  end_idx e <> -1 -> infer_end_idx_entry e = e.
Proof.
  intros Hne. unfold infer_end_idx_entry.
  destruct (Z.eqb_spec (end_idx e) (-1)); [contradiction|reflexivity].
Qed.

(** X10: the inference of the end index leaves no entry with end index -1,
    changes nothing else (the topics, in order, and every entry whose end
    index is not -1 stay as they are), and doing it twice is doing it
    once. *)
Theorem infer_end_idx_normalises cfg :
  map rosbag_topic (infer_end_idx cfg) = map rosbag_topic cfg
  /\ Forall (fun e => end_idx e <> -1) (infer_end_idx cfg)
  /\ infer_end_idx (infer_end_idx cfg) = infer_end_idx cfg
  /\ Forall (fun e => end_idx e <> -1 -> infer_end_idx_entry e = e) cfg.
Proof.
  unfold infer_end_idx. repeat split.
  - rewrite map_map. apply map_ext. intros e. unfold infer_end_idx_entry.
    destruct (end_idx e =? -1); reflexivity.
  - apply Forall_forall. intros e He. apply list_elem_of_In, in_map_iff in He.
    destruct He as (e0 & <- & _). apply infer_end_idx_entry_end.
  - rewrite map_map. apply map_ext. intros e.
    apply infer_end_idx_entry_fixed, infer_end_idx_entry_end.
  - apply Forall_forall. intros e _. apply infer_end_idx_entry_fixed.
Qed.

(** X11: a path whose last four characters are not [.bag] is taken for a
    directory; when no entry directly in it has a name that ends in [.bag]
    and does not start with a dot (an empty directory, bags only in
    subdirectories, or a bag file with another extension), the script ends
    normally with nothing done and nothing reported. *)
Theorem main_without_bags (bagfile out_dir : string) cfg x :
  last4 bagfile <> ".bag" ->
  (forall e name,
     e ∈ entries_below bagfile -> parts e = [name] ->
     PyStr.endswith ".bag" name = true -> PyStr.startswith "." name = true) ->
  main bagfile out_dir cfg x = (x, Ok tt).
Proof.
  intros Hlast Hnone. unfold main.
  apply String.eqb_neq in Hlast. rewrite Hlast.
  unfold extract_all, list_o_bags.
  destruct (selected bagfile) as [|[name size] l] eqn:Hsel; [reflexivity|].
  exfalso. assert ((name, size) ∈ selected bagfile) as Hin
    by (rewrite Hsel; apply list_elem_of_here).
  apply selected_spec in Hin as ((e & He & Hparts & _) & Hend & Hdot).
  rewrite (Hnone e name He Hparts Hend) in Hdot. discriminate.
Qed.

End ScriptProperties.

Lemma main_without_bags_witness :
  main (env := Example.env) "/data/run1.BAG" "out" [Example.twist_entry] Example.empty_world
  = (Example.empty_world, Ok tt).
Proof.
  apply main_without_bags.
  - vm_compute. discriminate.
  - intros e name He. vm_compute in He. inversion He.
Defined.

(** ** The twist extractor *)

Section TwistProperties.

Context {Num Time Extra : Type}.

Implicit Types (msg : @GeometryMsgs.twist Num) (t : Time) (o : option Extra).

Lemma process_twist_dom msg t o :
  dom (GeometryMsgs.process_twist msg t o) = list_to_set GeometryMsgs.twist_keys.
Proof.
  unfold GeometryMsgs.process_twist, GeometryMsgs.twist_keys.
  rewrite !dom_insert_L, dom_empty_L. simpl. reflexivity.
Qed.

(** X15: a twist message gives exactly the seven fields [stamp], [vx],
    [vy], [vz], [wx], [wy], [wz], whatever the options.  Written through a
    [DictWriter], the row is accepted when all seven are among the columns
    and raises [ValueError] when one is not; with the seven as columns the
    row holds the stamp, the linear and the angular coordinates, in that
    order and with no empty cell. *)
Theorem twist_row msg t o (fieldnames : list string) :
  (Forall (fun k => k ∈ fieldnames) GeometryMsgs.twist_keys ->
   dict_to_list fieldnames (CVal <$> GeometryMsgs.process_twist msg t o)
   = Ok (row_of fieldnames (GeometryMsgs.process_twist msg t o)))
  /\ (Exists (fun k => k ∉ fieldnames) GeometryMsgs.twist_keys ->
      dict_to_list fieldnames (CVal <$> GeometryMsgs.process_twist msg t o)
      = Raise ValueError)
  /\ row_of GeometryMsgs.twist_keys (GeometryMsgs.process_twist msg t o)
     = [CVal (GeometryMsgs.FStamp t);
        CVal (GeometryMsgs.FNum (GeometryMsgs.x (GeometryMsgs.linear msg)));
        CVal (GeometryMsgs.FNum (GeometryMsgs.y (GeometryMsgs.linear msg)));
        CVal (GeometryMsgs.FNum (GeometryMsgs.z (GeometryMsgs.linear msg)));
        CVal (GeometryMsgs.FNum (GeometryMsgs.x (GeometryMsgs.angular msg)));
        CVal (GeometryMsgs.FNum (GeometryMsgs.y (GeometryMsgs.angular msg)));
        CVal (GeometryMsgs.FNum (GeometryMsgs.z (GeometryMsgs.angular msg)))].
Proof.
  split; [|split].
  - intros Hall. apply dict_to_list_data. intros k Hk.
    rewrite process_twist_dom, elem_of_list_to_set in Hk.
    rewrite Forall_forall in Hall. apply Hall, Hk.
  - intros Hex. apply Exists_exists in Hex as (k & Hk & Hnot).
    apply (dict_to_list_wrong _ _ k); [|exact Hnot].
    rewrite process_twist_dom, elem_of_list_to_set. exact Hk.
  - reflexivity.
Qed.

(** X16: the dictionary of a twist message loses nothing: two messages with
    the same dictionary have the same stamp and the same six coordinates. *)
Theorem process_twist_inj msg msg' t t' o o' :
  GeometryMsgs.process_twist msg t o = GeometryMsgs.process_twist msg' t' o' ->
  msg = msg' /\ t = t'.
Proof.
  intros Heq.
  assert (forall k, GeometryMsgs.process_twist msg t o !! k
                    = GeometryMsgs.process_twist msg' t' o' !! k) as Hk
    by (intros k; rewrite Heq; reflexivity).
  pose proof (Hk "stamp") as Hs. pose proof (Hk "vx") as H1. pose proof (Hk "vy") as H2.
  pose proof (Hk "vz") as H3. pose proof (Hk "wx") as H4. pose proof (Hk "wy") as H5.
  pose proof (Hk "wz") as H6. clear Hk Heq.
  vm_compute in Hs, H1, H2, H3, H4, H5, H6.
  destruct msg as [[lx ly lz] [ax ay az]], msg' as [[lx' ly' lz'] [ax' ay' az']].
  simpl in *. injection Hs as ->. injection H1 as ->. injection H2 as ->.
  injection H3 as ->. injection H4 as ->. injection H5 as ->. injection H6 as ->.
  split; reflexivity.
Qed.

End TwistProperties.

(** ** The further properties on concrete inputs *)

Lemma zero_stride_raises_witness :
  for_each [Example.cmd_vel 1; Example.cmd_vel 2]
    (process_message (env := Example.env) [Edge.zero_entry] "out" "run1")
    (setup [Edge.zero_entry] Example.empty_world)
  = (setup [Edge.zero_entry] Example.empty_world, Raise ZeroDivisionError).
Proof.
  refine (proj1 (zero_stride_raises (env := Example.env) [Edge.zero_entry] "out" "run1"
                   (Example.cmd_vel 1) (setup [Edge.zero_entry] Example.empty_world)
                   Edge.zero_entry 0 _ eq_refl _ eq_refl) _ [Example.cmd_vel 2]).
  - apply list_elem_of_here.
  - vm_compute; reflexivity.
  - simpl. lia.
Defined.

Lemma sampled_out_frame_witness :
  exists s',
    process_message (env := Example.env) Example.config "out" "run1" (Example.cam 10)
      (setup Example.config Example.empty_world) = (s', Ok tt)
    /\ w s' = w (setup Example.config Example.empty_world)
    /\ csv_writers s' = csv_writers (setup Example.config Example.empty_world).
Proof.
  destruct (sampled_out_frame (env := Example.env) Example.config "out" "run1"
              (Example.cam 10) (setup Example.config Example.empty_world)
              Edge.cam_config 0) as (s' & H1 & H2 & H3 & _).
  - apply list_elem_of_In. simpl. auto.
  - reflexivity.
  - vm_compute; reflexivity.
  - reflexivity.
  - exists s'. repeat split; assumption.
Defined.

Lemma unknown_output_type_ignored_witness :
  exists s',
    process_message (env := Example.env) [Edge.pcd_entry] "out" "run1" (Edge.points 1)
      (setup [Edge.pcd_entry] Example.empty_world) = (s', Ok tt)
    /\ w s' = w (setup [Edge.pcd_entry] Example.empty_world).
Proof.
  destruct (unknown_output_type_ignored (env := Example.env) [Edge.pcd_entry] "out" "run1"
              (Edge.points 1) (setup [Edge.pcd_entry] Example.empty_world) Edge.pcd_entry)
    as (s' & H1 & H2 & _).
  - split; [apply list_elem_of_here|]. split; [reflexivity|].
    exists 0. split; [vm_compute; reflexivity|reflexivity].
  - discriminate.
  - discriminate.
  - exists s'. split; assumption.
Defined.

Lemma duplicate_entry_ignored_witness :
  process_message (env := Example.env)
    ([Example.cam_entry] ++ Example.twist_entry :: [Edge.zero_entry]) "out" "run1"
    (Example.cmd_vel 1)
    (setup [Example.cam_entry; Example.twist_entry; Edge.zero_entry] Example.empty_world)
  = process_message (env := Example.env)
      ([Example.cam_entry] ++ [Example.twist_entry]) "out" "run1"
      (Example.cmd_vel 1)
      (setup [Example.cam_entry; Example.twist_entry; Edge.zero_entry] Example.empty_world).
Proof. apply duplicate_entry_ignored. reflexivity. Defined.

Lemma progress_counts_messages_witness :
  let run := for_each [Example.cmd_vel 1; Example.tf 2]
               (process_message (env := Example.env) Example.config "out" "a")
               (setup Example.config Example.empty_world) in
  progress (fst run)
  = progress (setup Example.config Example.empty_world)
    + Z.of_nat (length [Example.cmd_vel 1; Example.tf 2]).
Proof.
  intros run. apply (progress_counts_messages (env := Example.env) Example.config "out" "a").
  apply run_result. vm_compute; reflexivity.
Defined.

Lemma unconfigured_bag_no_output_witness :
  extract_single (env := Example.env) "/data/a.bag" [Example.cam_entry] "out"
    Example.empty_world
  = (log_call (EBagOpen "/data/a.bag") Example.empty_world, Ok tt).
Proof.
  apply (unconfigured_bag_no_output (env := Example.env) "/data/a.bag" [Example.cam_entry]
           "out" Example.empty_world [Example.cmd_vel 1; Example.tf 2]).
  - reflexivity.
  - repeat constructor; intros H; apply list_elem_of_In in H; simpl in H;
      destruct H as [H|[]]; discriminate.
Defined.

Lemma missing_bag_raises_witness :
  extract_single (env := Example.env) "/data/nowhere.bag" Example.config "out"
    Example.empty_world
  = (log_call (EBagOpen "/data/nowhere.bag") Example.empty_world,
     Raise (BagError "/data/nowhere.bag")).
Proof. apply missing_bag_raises. reflexivity. Defined.

Lemma registered_handles_open_witness :
  NoDup (registered
           (fst (for_each [Example.cmd_vel 10; Example.cam 10]
                   (process_message (env := Example.env) Example.config "out" "run1")
                   (set_w (log_call (EBagOpen "/data/run1.bag") Example.empty_world)
                      (setup Example.config Example.empty_world))))).
Proof.
  refine (proj1 (registered_handles_open (env := Example.env) "/data/run1.bag" "run1"
                   Example.config "out" Example.empty_world
                   [Example.cmd_vel 10; Example.cam 10] _ _)).
  apply run_result. vm_compute; reflexivity.
Defined.

Lemma process_twist_inj_witness :
  Edge.a_twist = Edge.a_twist /\ 7 = 7.
Proof.
  apply (process_twist_inj (Extra := unit) Edge.a_twist Edge.a_twist 7 7 None None).
  reflexivity.
Defined.

(** ** The tables of a bag *)

Section TableProperties.

Context {Payload Stamp Value Image PngInfo Extra : Type}.
Context {env : @Collaborators Payload Stamp Value Image PngInfo Extra}.

Implicit Types (s : @state Value Image PngInfo) (m : @message Payload Stamp).
Implicit Types (x : @world Value Image PngInfo).
Implicit Types (cfg : list (@schema_entry Extra)) (tc : @schema_entry Extra).

Lemma head_filter_topic cfg (topic : string) tc :
  head (filter (fun topic_info => rosbag_topic topic_info = topic) cfg) = Some tc ->
  tc ∈ cfg /\ rosbag_topic tc = topic.
Proof.
  intros Hhead. apply head_Some_elem_of, list_elem_of_filter in Hhead as [Ht Hin].
  split; assumption.
Qed.

Lemma dict_to_list_length (fieldnames : list string) (rowdict : gmap string (@cell Value))
    (r : list (@cell Value)) :
  dict_to_list fieldnames rowdict = Ok r -> length r = length fieldnames.
Proof.
  unfold dict_to_list. destruct (decide _); [|discriminate].
  intros [= <-]. apply length_map.
Qed.

Lemma elem_of_dict_set {V : Type} (k : string) (v : V) (d : list (string * V))
    (kv : string * V) :
  kv ∈ dict_set k v d -> kv = (k, v) \/ kv ∈ d.
Proof.
  induction d as [|[k' v'] d IH]; simpl.
  - intros Hin. apply list_elem_of_singleton in Hin. left. exact Hin.
  - destruct (decide (k' = k)).
    + intros Hin. apply elem_of_cons in Hin as [->|Hin]; [left; reflexivity|].
      right. apply list_elem_of_further, Hin.
    + intros Hin. apply elem_of_cons in Hin as [->|Hin]; [right; apply list_elem_of_here|].
      destruct (IH Hin) as [->|Hd]; [left; reflexivity|].
      right. apply list_elem_of_further, Hd.
Qed.

#[local] Instance kept_preorder (P : @state Value Image PngInfo -> Prop) : PreOrder (kept P).
Proof.
  split.
  - intros s H. exact H.
  - intros s1 s2 s3 H1 H2 H. apply H2, H1, H.
Qed.

#[local] Instance same_tables_preorder : PreOrder (@same_tables Value Image PngInfo).
Proof.
  split.
  - intros s. repeat split.
  - intros s1 s2 s3 (A1 & A2 & A3) (B1 & B2 & B3). unfold same_tables.
    rewrite B1, B2, B3. repeat split; assumption.
Qed.

#[local] Existing Instance same_handles_preorder.

Lemma world_step_same_tables {A : Type} (op : M (@world Value Image PngInfo) A) :
  (forall x, handles (fst (op x)) = handles x /\ files (fst (op x)) = files x) ->
  preserves same_tables (in_world op).
Proof.
  intros Hop s. rewrite in_world_run. destruct (Hop (w s)) as [Hh Hf].
  repeat split; simpl; assumption.
Qed.

Lemma mkdir_same (p : string) x :
  handles (fst (mkdir p x)) = handles x /\ files (fst (mkdir p x)) = files x.
Proof. unfold mkdir. run_monad. destruct (writable p); split; reflexivity. Qed.

Lemma save_same (p : string) (img : Image) (meta : PngInfo) x :
  handles (fst (save p img meta x)) = handles x /\ files (fst (save p img meta x)) = files x.
Proof. unfold save. run_monad. destruct (writable p); split; reflexivity. Qed.

Lemma extract_img_same_tables out_dir bag_name tc m :
  preserves same_tables (extract_img out_dir bag_name tc m).
Proof.
  unfold extract_img, get_count.
  preserves_with ltac:(first
    [ match goal with
      | |- preserves _ (in_world _) =>
          apply world_step_same_tables; intros ?; first [apply mkdir_same | apply save_same]
      | |- preserves _ (modify _) => apply preserves_modify; intros ?; repeat split
      end ]).
Qed.

Lemma write_message_row_same_handles tc m : preserves same_handles (write_message_row tc m).
Proof.
  unfold write_message_row.
  preserves_with ltac:(first
    [ match goal with
      | |- preserves _ (in_world _) =>
          apply in_world_same_handles; intros ?; apply writerow_handles
      end ]).
Qed.

(** ** An invariant of the sinks through a bag

    A property of the state that steps which leave the sinks, the handles
    and the files alone do not disturb, and that the tabular extraction and
    the closes keep, holds when [extract_single] is left if it held at the
    start, whatever the outcome. *)

Section Invariant.

Context (P : @state Value Image PngInfo -> Prop).
Context (cfg : list (@schema_entry Extra)) (out_dir bag_name : string).
Context (Hstable : forall s s', same_tables s s' -> P s -> P s').
Context (Hcsv : forall m tc,
            head (filter (fun topic_info => rosbag_topic topic_info = m_topic m) cfg)
              = Some tc ->
            output_type tc = "csv" ->
            preserves (kept P) (extract_csv out_dir bag_name tc m)).
Context (Hclose : forall h : nat, preserves (kept P) (in_world (close h))).

Lemma extract_message_inv m : preserves (kept P) (extract_message cfg out_dir bag_name m).
Proof.
  intros s Hinv.
  destruct (decide (m_topic m ∈ map rosbag_topic cfg)) as [Hin|Hout].
  2: { rewrite extract_message_other by exact Hout. exact Hinv. }
  destruct (topic_msg_counts s !! m_topic m) as [idx|] eqn:Hidx.
  2: { unfold extract_message, get_count. rewrite bool_decide_eq_true_2 by exact Hin.
       run_monad. rewrite Hidx. exact Hinv. }
  destruct (head (filter (fun topic_info => rosbag_topic topic_info = m_topic m) cfg))
    as [tc|] eqn:Hhead.
  2: { unfold extract_message, get_count. rewrite bool_decide_eq_true_2 by exact Hin.
       run_monad. rewrite Hidx. run_monad. rewrite Hhead. exact Hinv. }
  rewrite (extract_message_configured _ _ _ _ _ tc idx Hin Hhead Hidx).
  destruct (should_keep _ _ _ _) as [[|]|e]; try exact Hinv.
  destruct (String.eqb (output_type tc) "csv") eqn:Hty.
  - apply String.eqb_eq in Hty. apply (Hcsv m tc Hhead Hty s Hinv).
  - destruct (String.eqb (output_type tc) "dir_of_imgs"); [|exact Hinv].
    apply (Hstable s); [apply extract_img_same_tables|exact Hinv].
Qed.

Lemma process_message_inv m : preserves (kept P) (process_message cfg out_dir bag_name m).
Proof.
  intros s Hinv.
  destruct (process_message cfg out_dir bag_name m s) as [s' r] eqn:Hrun. simpl.
  pose proof (extract_message_inv m s Hinv) as Hext.
  destruct (process_message_cases _ _ _ _ _ _ _ Hrun)
    as [(s1 & Hs1 & [Hcsv' _] & Hw)|(e & He)].
  - rewrite Hs1 in Hext. simpl in Hext.
    apply (Hstable s1); [|exact Hext].
    unfold same_tables. rewrite Hw. repeat split. exact Hcsv'.
  - rewrite He in Hext. exact Hext.
Qed.

Lemma close_all_inv : preserves (kept P) close_all.
Proof. unfold close_all. preserves_with ltac:(first [apply Hclose]). Qed.

Lemma open_bag_inv (path : string) : preserves (kept P) (in_world (open_bag path)).
Proof.
  intros s Hinv. apply (Hstable s); [|exact Hinv].
  rewrite in_world_run. unfold open_bag. run_monad.
  destruct (read_messages path); repeat split.
Qed.

Lemma loop_inv (path : string) :
  preserves (kept P)
    (bag ← in_world (open_bag path);
     for_each bag (process_message cfg out_dir bag_name)).
Proof.
  apply preserves_bind; [apply kept_preorder|apply open_bag_inv|].
  intros bag. apply preserves_for_each; [apply kept_preorder|].
  intros m. apply process_message_inv.
Qed.

End Invariant.

(** ** The files of the sinks *)

Lemma sink_files_stable cfg out_dir bag_name s s' :
  same_handles s s' -> sink_files cfg out_dir bag_name s -> sink_files cfg out_dir bag_name s'.
Proof.
  intros [Hc Hh] Hinv topic sink Hin. rewrite Hc in Hin. rewrite Hh.
  apply (Hinv topic sink Hin).
Qed.

Lemma create_csv_writer_files cfg out_dir bag_name (topic msg_type : string) tc s :
  tc ∈ cfg ->
  kept (sink_files cfg out_dir bag_name) s
    (fst (create_csv_writer out_dir bag_name tc topic msg_type s)).
Proof.
  intros Htc Hinv.
  destruct (writable (out_dir +:+ "/" +:+ bag_name)) eqn:Hw1.
  2: { apply (sink_files_stable _ _ _ s); [|exact Hinv].
       unfold create_csv_writer, in_world, mkdir. run_monad. rewrite Hw1. repeat split. }
  destruct (writable (csv_file_path out_dir bag_name tc)) eqn:Hw2.
  2: { apply (sink_files_stable _ _ _ s); [|exact Hinv].
       unfold create_csv_writer, in_world, mkdir, open_w.
       run_monad. rewrite Hw1. run_monad. rewrite Hw2. repeat split. }
  destruct (get_msg_cols msg_type) as [cols|] eqn:Hcols.
  - rewrite (create_csv_writer_run _ _ _ _ _ _ cols Hw1 Hw2 Hcols). cbn [fst].
    intros topic' sink' Hin. simpl in Hin. simpl.
    apply elem_of_dict_set in Hin as [[= -> ->]|Hin].
    + exists tc, {| h_path := resolve (csv_file_path out_dir bag_name tc); h_closes := 0 |}.
      split; [exact Htc|]. split; [apply list_lookup_middle; reflexivity|reflexivity].
    + destruct (Hinv _ _ Hin) as (tc' & fh & Htc' & Hfh & Hp).
      exists tc', fh. split; [exact Htc'|]. split; [apply lookup_app_l_Some, Hfh|exact Hp].
  - unfold create_csv_writer, in_world, mkdir, open_w.
    run_monad. rewrite Hw1. run_monad. rewrite Hw2. run_monad. rewrite Hcols. run_monad.
    intros topic' sink' Hin. simpl in *.
    destruct (Hinv _ _ Hin) as (tc' & fh & Htc' & Hfh & Hp).
    exists tc', fh. split; [exact Htc'|]. split; [apply lookup_app_l_Some, Hfh|exact Hp].
Qed.

Lemma extract_csv_files cfg out_dir bag_name tc m :
  tc ∈ cfg ->
  preserves (kept (sink_files cfg out_dir bag_name)) (extract_csv out_dir bag_name tc m).
Proof.
  intros Htc s Hinv. rewrite extract_csv_split, ensure_csv_writer_run.
  assert (forall s1, sink_files cfg out_dir bag_name s1 ->
                     sink_files cfg out_dir bag_name (fst (write_message_row tc m s1)))
    as Hrow.
  { intros s1 H1. apply (sink_files_stable _ _ _ s1); [|exact H1].
    apply write_message_row_same_handles. }
  destruct (dict_get (m_topic m) (csv_writers s)).
  - apply Hrow, Hinv.
  - pose proof (create_csv_writer_files cfg out_dir bag_name (m_topic m) (m_type m) tc s
                  Htc Hinv) as H.
    destruct (create_csv_writer _ _ _ _ _ s) as [s1 [[]|e]]; simpl in H.
    + apply Hrow, H.
    + exact H.
Qed.

Lemma close_files cfg out_dir bag_name (h : nat) :
  preserves (kept (sink_files cfg out_dir bag_name)) (in_world (close h)).
Proof.
  intros s Hinv. rewrite in_world_run. simpl.
  intros topic sink Hin. simpl in Hin. simpl.
  destruct (Hinv _ _ Hin) as (tc & fh & Htc & Hfh & Hp).
  destruct (close_effect h (w s)) as (Hh & _). cbv zeta in Hh.
  rewrite Hh, list_lookup_alter.
  destruct (decide (h = file sink)) as [->|Hother].
  - exists tc, (closed_once fh). rewrite Hfh. repeat split; assumption.
  - exists tc, fh. repeat split; assumption.
Qed.

(** When the loop of a bag is left, with or without an exception, every
    sink holds a handle on the table file of an entry of the schema. *)
Lemma main_loop_files (path : string) cfg out_dir x :
  sink_files cfg out_dir (bag_name_of path)
    (fst (main_loop path cfg out_dir (setup cfg x))).
Proof.
  assert (preserves (kept (sink_files cfg out_dir (bag_name_of path)))
            (main_loop path cfg out_dir)) as Hkept.
  { apply loop_inv.
    - intros s s' (Hc & Hh & _). apply sink_files_stable. split; assumption.
    - intros m tc Hhead _. apply extract_csv_files.
      apply (head_filter_topic _ _ _ Hhead). }
  apply Hkept. intros topic sink Hin. inversion Hin.
Qed.

(** The loop of the [finally] block succeeds when the files of the handles
    it closes can be flushed. *)
Lemma close_loop_flushed (l : list (string * @csv_sink)) s :
  (forall kv fh, kv ∈ l -> handles (w s) !! file (snd kv) = Some fh ->
                 flushes (h_path fh) = true) ->
  snd (for_each l (fun kv => in_world (close (file (snd kv)))) s) = Ok tt.
Proof.
  revert s. induction l as [|kv l IH]; intros s Hflush; [reflexivity|].
  simpl for_each. rewrite bind_run, in_world_run, close_result.
  destruct (close_effect (file (snd kv)) (w s)) as (Hh & _). cbv zeta in Hh.
  assert (forall kv' fh, kv' ∈ l ->
            handles (w (set_w (fst (close (file (snd kv)) (w s))) s)) !! file (snd kv')
            = Some fh -> flushes (h_path fh) = true) as Hrest.
  { intros kv' fh Hin. simpl. rewrite Hh, list_lookup_alter.
    destruct (decide (file (snd kv) = file (snd kv'))) as [Heq|Hne].
    - rewrite ?Heq.
      destruct (handles (w s) !! file (snd kv')) as [fh0|] eqn:Hfh0; simpl;
        [|discriminate].
      intros [= <-]. simpl. apply (Hflush kv' fh0); [apply list_elem_of_further, Hin|].
      exact Hfh0.
    - intros Hfh. apply (Hflush kv' fh); [apply list_elem_of_further, Hin|exact Hfh]. }
  destruct (handles (w s) !! file (snd kv)) as [fh|] eqn:Hfh.
  - rewrite (Hflush kv fh (list_elem_of_here _ _) Hfh), andb_false_r.
    apply IH, Hrest.
  - apply IH, Hrest.
Qed.

(** X17: when the table files of the schema can be flushed, the [finally]
    block does not change the outcome: for a bag that opens,
    [extract_single] returns normally exactly when every message was
    processed, and otherwise raises the exception of the first message that
    failed. *)
Theorem finally_keeps_outcome (path : string) cfg out_dir x
    (msgs : list (@message Payload Stamp)) :
  read_messages path = Some msgs ->
  (forall tc, tc ∈ cfg ->
              flushes (resolve (csv_file_path out_dir (bag_name_of path) tc)) = true) ->
  snd (extract_single path cfg out_dir x)
  = snd (for_each msgs (process_message cfg out_dir (bag_name_of path))
           (set_w (log_call (EBagOpen path) x) (setup cfg x))).
Proof.
  intros Hbag Hflush. rewrite extract_single_result.
  pose proof (main_loop_files path cfg out_dir x) as Hfiles.
  assert (snd (close_all (fst (main_loop path cfg out_dir (setup cfg x)))) = Ok tt) as ->.
  { unfold close_all. rewrite bind_run. simpl.
    apply close_loop_flushed. intros [topic sink] fh Hin Hfh. simpl in Hfh.
    destruct (Hfiles topic sink Hin) as (tc & fh' & Htc & Hfh' & Hp).
    rewrite Hfh in Hfh'. injection Hfh' as <-. rewrite Hp. apply Hflush, Htc. }
  unfold main_loop. rewrite bind_run, in_world_run, open_bag_run, Hbag. reflexivity.
Qed.

(** ** The contents of the tables *)

Lemma table_inv_stable cfg out_dir bag_name s s' :
  same_tables s s' -> table_inv cfg out_dir bag_name s -> table_inv cfg out_dir bag_name s'.
Proof.
  intros (Hc & Hh & Hf) Hinv topic sink Hget. rewrite Hc in Hget.
  destruct (Hinv topic sink Hget) as (tc & fh & rows & H1 & Hty & H2 & H3 & H4 & H5 & H6).
  exists tc, fh, rows. rewrite Hh, Hf. repeat split; assumption.
Qed.

Section Distinct.

(** The tables of different topics are different files. *)
Context (cfg : list (@schema_entry Extra)) (out_dir bag_name : string).
Context (Hfiles : forall e1 e2 : @schema_entry Extra,
            e1 ∈ cfg -> e2 ∈ cfg ->
            output_type e1 = "csv" -> output_type e2 = "csv" ->
            resolve (csv_file_path out_dir bag_name e1)
            = resolve (csv_file_path out_dir bag_name e2) ->
            rosbag_topic e1 = rosbag_topic e2).

Lemma other_topic_other_file (topic topic' : string) tc tc' :
  head (filter (fun topic_info => rosbag_topic topic_info = topic) cfg) = Some tc ->
  head (filter (fun topic_info => rosbag_topic topic_info = topic') cfg) = Some tc' ->
  output_type tc = "csv" -> output_type tc' = "csv" ->
  topic <> topic' ->
  resolve (csv_file_path out_dir bag_name tc) <> resolve (csv_file_path out_dir bag_name tc').
Proof.
  intros H1 H2 Hty Hty' Hne Hpath.
  apply head_filter_topic in H1 as [Hin1 Ht1], H2 as [Hin2 Ht2].
  apply (Hfiles _ _ Hin1 Hin2 Hty Hty') in Hpath. congruence.
Qed.

Lemma write_message_row_tables tc m :
  preserves (kept (table_inv cfg out_dir bag_name)) (write_message_row tc m).
Proof.
  intros s Hinv. unfold write_message_row. rewrite bind_run.
  destruct (process_msg_csv _ _ _ _) as [data|]; simpl; [|exact Hinv].
  rewrite !bind_run. simpl.
  destruct (dict_get (m_topic m) (csv_writers s)) as [sink|] eqn:Hsink; simpl;
    [|exact Hinv].
  rewrite bind_run. simpl. rewrite in_world_run. cbn [fst].
  unfold writerow. rewrite bind_run. unfold lift_result.
  destruct (dict_to_list (writer sink) (CVal <$> data)) as [r|e] eqn:Hrow.
  2: { apply (table_inv_stable _ _ _ s); [repeat split|exact Hinv]. }
  apply dict_to_list_length in Hrow.
  destruct (Hinv _ _ Hsink) as (tc0 & fh & rows & H1 & Hty & H2 & H3 & H4 & H5 & H6).
  destruct (h_closes fh) as [|c] eqn:Hopen.
  2: { apply (table_inv_stable _ _ _ s); [|exact Hinv].
       unfold write_row. run_monad. rewrite H2, Hopen. repeat split. }
  rewrite (write_row_open _ _ _ fh H2 Hopen). simpl.
  intros topic' sink' Hget. simpl in Hget. simpl.
  destruct (decide (m_topic m = topic')) as [<-|Hne].
  - rewrite Hsink in Hget. injection Hget as <-.
    exists tc0, fh, (rows ++ [r]). split; [exact H1|]. split; [exact Hty|].
    split; [exact H2|]. split; [exact H3|]. split; [exact H4|].
    rewrite H3, H5. simpl. split; [apply lookup_insert_eq|].
    apply Forall_app. split; [exact H6|]. repeat constructor. exact Hrow.
  - destruct (Hinv _ _ Hget) as (tc' & fh' & rows' & G1 & Gty & G2 & G3 & G4 & G5 & G6).
    exists tc', fh', rows'. split; [exact G1|]. split; [exact Gty|].
    split; [exact G2|]. split; [exact G3|]. split; [exact G4|]. split; [|exact G6].
    rewrite H3, lookup_insert_ne; [exact G5|].
    apply (other_topic_other_file _ _ tc0 tc' H1 G1 Hty Gty Hne).
Qed.

Lemma create_csv_writer_tables (topic msg_type : string) tc s :
  dict_get topic (csv_writers s) = None ->
  head (filter (fun topic_info => rosbag_topic topic_info = topic) cfg) = Some tc ->
  output_type tc = "csv" ->
  kept (table_inv cfg out_dir bag_name) s
    (fst (create_csv_writer out_dir bag_name tc topic msg_type s)).
Proof.
  intros Hnone Hhead Hty Hinv.
  assert (forall topic' sink' (old : list (list (@cell Value))),
            dict_get topic' (csv_writers s) = Some sink' ->
            exists tc' fh rows,
              head (filter (fun topic_info => rosbag_topic topic_info = topic') cfg)
                = Some tc'
              /\ output_type tc' = "csv"
              /\ (handles (w s)
                  ++ [{| h_path := resolve (csv_file_path out_dir bag_name tc);
                         h_closes := 0 |}]) !! file sink' = Some fh
              /\ h_path fh = resolve (csv_file_path out_dir bag_name tc')
              /\ get_msg_cols (sink_msg_type sink') = Some (writer sink')
              /\ <[resolve (csv_file_path out_dir bag_name tc) := old]> (files (w s))
                 !! resolve (csv_file_path out_dir bag_name tc')
                 = Some (map CStr (writer sink') :: rows)
              /\ Forall (fun r => length r = length (writer sink')) rows) as Hothers.
  { intros topic' sink' old Hget.
    destruct (Hinv topic' sink' Hget) as (tc' & fh & rows & H1 & Gty & H2 & H3 & H4 & H5 & H6).
    exists tc', fh, rows. split; [exact H1|]. split; [exact Gty|].
    split; [apply lookup_app_l_Some, H2|]. split; [exact H3|]. split; [exact H4|].
    split; [|exact H6].
    rewrite lookup_insert_ne; [exact H5|].
    apply (other_topic_other_file topic topic' tc tc' Hhead H1 Hty Gty). congruence. }
  destruct (writable (out_dir +:+ "/" +:+ bag_name)) eqn:Hw1.
  2: { apply (table_inv_stable _ _ _ s); [|exact Hinv].
       unfold create_csv_writer, in_world, mkdir. run_monad. rewrite Hw1. repeat split. }
  destruct (writable (csv_file_path out_dir bag_name tc)) eqn:Hw2.
  2: { apply (table_inv_stable _ _ _ s); [|exact Hinv].
       unfold create_csv_writer, in_world, mkdir, open_w.
       run_monad. rewrite Hw1. run_monad. rewrite Hw2. repeat split. }
  destruct (get_msg_cols msg_type) as [cols|] eqn:Hcols.
  - rewrite (create_csv_writer_run _ _ _ _ _ _ cols Hw1 Hw2 Hcols). cbn [fst].
    intros topic' sink'. simpl.
    destruct (decide (topic = topic')) as [<-|Hne].
    + rewrite dict_get_set_eq. intros [= <-]. simpl.
      exists tc, {| h_path := resolve (csv_file_path out_dir bag_name tc); h_closes := 0 |}, [].
      split; [exact Hhead|]. split; [exact Hty|].
      split; [apply list_lookup_middle; reflexivity|].
      split; [reflexivity|]. split; [exact Hcols|].
      split; [apply lookup_insert_eq|constructor].
    + rewrite dict_get_set_ne by exact Hne. apply Hothers.
  - unfold create_csv_writer, in_world, mkdir, open_w.
    run_monad. rewrite Hw1. run_monad. rewrite Hw2. run_monad. rewrite Hcols. run_monad.
    intros topic' sink' Hget. simpl in *. apply Hothers, Hget.
Qed.

Lemma extract_csv_tables tc m :
  head (filter (fun topic_info => rosbag_topic topic_info = m_topic m) cfg) = Some tc ->
  output_type tc = "csv" ->
  preserves (kept (table_inv cfg out_dir bag_name)) (extract_csv out_dir bag_name tc m).
Proof.
  intros Hhead Hty s Hinv. rewrite extract_csv_split, ensure_csv_writer_run.
  destruct (dict_get (m_topic m) (csv_writers s)) eqn:Hget.
  - apply write_message_row_tables, Hinv.
  - pose proof (create_csv_writer_tables (m_topic m) (m_type m) tc s Hget Hhead Hty Hinv)
      as H.
    destruct (create_csv_writer _ _ _ _ _ s) as [s1 [[]|e]]; simpl in H.
    + apply write_message_row_tables, H.
    + exact H.
Qed.

Lemma close_tables (h : nat) :
  preserves (kept (table_inv cfg out_dir bag_name)) (in_world (close h)).
Proof.
  intros s Hinv. rewrite in_world_run. simpl.
  intros topic sink Hget. simpl in Hget. simpl.
  destruct (Hinv _ _ Hget) as (tc & fh & rows & H1 & Hty & H2 & H3 & H4 & H5 & H6).
  destruct (close_effect h (w s)) as (Hh & _ & Hf & _). cbv zeta in Hh, Hf.
  rewrite Hh, Hf, list_lookup_alter.
  destruct (decide (h = file sink)) as [->|Hother].
  - exists tc, (closed_once fh), rows. rewrite H2. repeat split; assumption.
  - exists tc, fh, rows. repeat split; assumption.
Qed.

End Distinct.

(** X18: when the tables of different topics are different files (no two
    tabular entries of different topics have paths that resolve to one
    file), the tables of a bag are well formed when [extract_single] is
    left, whatever its outcome: every registered sink writes to the file of
    the first entry of its topic, its columns are those the handler gives
    for its message type, and what has been written to that file is the
    header row followed by rows of as many cells as there are columns. *)
Theorem tables_hold_header_and_rows (path : string) cfg out_dir x :
  (forall e1 e2 : @schema_entry Extra,
      e1 ∈ cfg -> e2 ∈ cfg ->
      output_type e1 = "csv" -> output_type e2 = "csv" ->
      resolve (csv_file_path out_dir (bag_name_of path) e1)
      = resolve (csv_file_path out_dir (bag_name_of path) e2) ->
      rosbag_topic e1 = rosbag_topic e2) ->
  table_inv cfg out_dir (bag_name_of path)
    (fst (extract_single_state path cfg out_dir (setup cfg x))).
Proof.
  intros Hfiles.
  assert (preserves (kept (table_inv cfg out_dir (bag_name_of path)))
            (extract_single_state path cfg out_dir)) as Hkept.
  { unfold extract_single_state, main_loop.
    apply preserves_try_finally; [apply kept_preorder| |].
    - apply loop_inv.
      + apply table_inv_stable.
      + intros m tc. apply (extract_csv_tables cfg out_dir (bag_name_of path) Hfiles).
    - apply close_all_inv. apply close_tables. }
  apply Hkept. intros topic sink Hget. discriminate Hget.
Qed.

End TableProperties.

Lemma finally_keeps_outcome_witness :
  snd (extract_single (env := Example.env) "/data/c.bag" Example.config "out"
         Example.empty_world)
  = snd (for_each [Example.cmd_vel 1]
           (process_message (env := Example.env) Example.config "out"
              (bag_name_of "/data/c.bag"))
           (set_w (log_call (EBagOpen "/data/c.bag") Example.empty_world)
              (setup Example.config Example.empty_world))).
Proof.
  apply (finally_keeps_outcome (env := Example.env)); [reflexivity|].
  intros tc _. reflexivity.
Defined.

Lemma tables_hold_header_and_rows_witness :
  table_inv (env := Edge.env) Edge.two_tables "out" (bag_name_of "/data/two.bag")
    (fst (extract_single_state (env := Edge.env) "/data/two.bag" Edge.two_tables "out"
            (setup Edge.two_tables Example.empty_world))).
Proof.
  apply (tables_hold_header_and_rows (env := Edge.env)).
  intros e1 e2 H1 H2 _ _.
  apply list_elem_of_In in H1, H2. simpl in H1, H2.
  destruct H1 as [<-|[<-|[]]], H2 as [<-|[<-|[]]]; intros Hres;
    first [reflexivity | vm_compute in Hres; discriminate Hres].
Defined.

(** ** The file system failing, on concrete inputs *)

(** The directory [/logs/] holds a link whose target is missing: its size
    cannot be taken, and the batch ends before any bag is invoked. *)
Lemma batch_ends_on_failed_stat :
  selected (env := Edge.env) "/logs/"
  = [("a.bag", Some 100); ("gone.bag", None); ("b.bag", Some 50)]
  /\ extract_all (env := Edge.env) "/logs/" Example.config "out" Example.empty_world
     = (Example.empty_world, Raise (OSError "/logs/gone.bag")).
Proof. split; vm_compute; reflexivity. Qed.

(** The paths of the bags are written as [pathlib] writes them. *)
Lemma bag_paths_are_normalised :
  list_o_bags (env := Edge.env) "/data/" = Ok ["/data/two.bag"]
  /\ PyPath.child "" "a.bag" = "a.bag"
  /\ PyPath.child "./logs//" "a.bag" = "logs/a.bag"
  /\ PyPath.child "//srv/./bags" "a.bag" = "//srv/bags/a.bag"
  /\ PyPath.child "/" "a.bag" = "/a.bag"
  /\ PyPath.str "out/run1/./twist.csv" = "out/run1/twist.csv"
  /\ PyPath.str "" = ".".
Proof. repeat split; vm_compute; reflexivity. Qed.

(** In the bag [full.bag] every message is processed; the close of the
    first sink then fails: the [finally] block ends there, the second sink
    stays open, and [extract_single] raises the error of the close. *)
Lemma failed_close_leaves_later_sink_open :
  let r := extract_single (env := Edge.env) "/data/full.bag" Edge.two_tables "out"
             Example.empty_world in
  snd (main_loop (env := Edge.env) "/data/full.bag" Edge.two_tables "out"
         (setup Edge.two_tables Example.empty_world)) = Ok tt
  /\ snd r = Raise (OSError "out/full/twist.csv")
  /\ handles (fst r) = [{| h_path := "out/full/twist.csv"; h_closes := 1 |};
                        {| h_path := "out/full/odom.csv"; h_closes := 0 |}].
Proof. vm_compute. repeat split. Qed.
